(** * Gesture-controlled particle visualisation: model and specification

    A shallow embedding of the particle engine of the repository:

    - [src/services/geometry.ts]          the five shape generators,
    - [src/components/ParticleSystem.tsx] the particle buffers, the
      retargeting effect and the per-frame animation callback,
    - [src/App.tsx]                       the gesture interpretation that
      runs once per video frame.

    Modelling conventions.

    - A JavaScript [number] is a real number ([R]); the rounding of
      binary64 arithmetic and the narrowing of a [Float32Array] store are
      outside the model, and so are NaN and the infinities.
    - A [Float32Array] is a [list R] of fixed length.  A write outside the
      array is dropped, as it is for a typed array.  A read outside the
      array gives [undefined] in the source; the model returns 0 there.
      The buffers are allocated with the sizes that keep the reads of the
      modelled code inside ([generate_length], [initBuffers_lengths],
      [useFrame_spec]).
    - [Math.random()] is an explicit source: the [k]-th call of a run
      returns [Math_random k], and the number of calls made so far is
      threaded through every function that draws.
    - An uncaught exception is the [TypeError] outcome of a [Completion]. *)

From Stdlib Require Import Reals Lra Lia List.
From stdpp Require Import base list.

#[local] Open Scope R_scope.

(** ** Loops *)

(** [for (let i = 0; i < n; i++) body] over a state [S]. *)
Definition for_loop {S : Type} (n : nat) (body : nat -> S -> S) (s : S) : S :=
  fold_left (fun acc i => body i acc) (seq 0 n) s.

(** ** Typed arrays *)

Abbreviation Float32Array := (list R).

(** [new Float32Array(n)]: [n] entries, all zero. *)
Definition Float32Array_new (n : nat) : Float32Array := replicate n 0.

(** [buf[i]] as a number. *)
Definition rd (buf : Float32Array) (i : nat) : R := default 0 (buf !! i).

(** The three writes [buf[i*3] = x; buf[i*3+1] = y; buf[i*3+2] = z]. *)
Definition write3 (i : nat) (p : R * R * R) (buf : Float32Array) : Float32Array :=
  let '(x, y, z) := p in
  <[(i * 3 + 2)%nat := z]> (<[(i * 3 + 1)%nat := y]> (<[(i * 3)%nat := x]> buf)).

(** The three entries of particle [i], read as numbers. *)
Definition rd3 (buf : Float32Array) (i : nat) : R * R * R :=
  (rd buf (i * 3), rd buf (i * 3 + 1), rd buf (i * 3 + 2)).

(** The three entries of particle [i], when all three are inside the array. *)
Definition particle (buf : Float32Array) (i : nat) : option (R * R * R) :=
  match buf !! (i * 3)%nat, buf !! (i * 3 + 1)%nat, buf !! (i * 3 + 2)%nat with
  | Some x, Some y, Some z => Some (x, y, z)
  | _, _, _ => None
  end.

(** Coordinate [c] (0, 1 or 2) of a point. *)
Definition coord (c : nat) (p : R * R * R) : R :=
  match c with
  | 0%nat => fst (fst p)
  | 1%nat => snd (fst p)
  | _ => snd p
  end.

(** Euclidean norm of a point. *)
Definition norm3 (p : R * R * R) : R :=
  let '(x, y, z) := p in sqrt (x * x + y * y + z * z).

(** Euclidean distance between two points. *)
Definition dist3 (p q : R * R * R) : R :=
  let '(x, y, z) := p in
  let '(a, b, c) := q in
  norm3 (x - a, y - b, z - c).

(** [a < b] as a JavaScript boolean. *)
Definition Rltb (a b : R) : bool := if Rlt_dec a b then true else false.

(** ** Constants ([src/constants.ts]) *)

Definition PARTICLE_COUNT : nat := 4000.

(** ** Types (the types module: [ShapeType], [GestureState]) *)

Inductive ShapeType : Type := TREE | HEART | STAR | SPHERE | FLOWER.

Record GestureState : Type := mkGesture {
  isOpen : bool;
  openness : R;
  rotationX : R;
  pinchDistance : R;
  isPinching : bool;
  handDetected : bool
}.

Module Vector3.
Record t : Type := mk { x : R; y : R; z : R }.
End Vector3.

(** ** Shape generators ([src/services/geometry.ts]) *)

Section Geometry.

(** The random source: the [k]-th call of [Math.random()]. *)
Variable Math_random : nat -> R.

(** [randomOnSphere]: three draws, in the order theta, phi, r. *)
Definition randomOnSphere (k : nat) : Vector3.t * nat :=
  let theta := Math_random k * PI * 2 in
  let phi := acos (2 * Math_random (k + 1) - 1) in
  let r := 4 + Math_random (k + 2) in
  (Vector3.mk (r * sin phi * cos theta)
              (r * sin phi * sin theta)
              (r * cos phi),
   (k + 3)%nat).

(** The point written by iteration [i] of [generateTreePoints count],
    when [k] draws were made before the iteration. *)
Definition treePoint (count i k : nat) : R * R * R :=
  let t := INR i / INR count in
  let angle := t * PI * 20 in
  let radius := t * 3.5 in
  let x := cos angle * radius + (Math_random k - 0.5) * 0.5 in
  let y := -3 + (1 - t) * 7 in
  let z := sin angle * radius + (Math_random (k + 1) - 0.5) * 0.5 in
  (x, y, z).

Definition generateTreePoints (count k : nat) : Float32Array * nat :=
  let positions := Float32Array_new (count * 3) in
  for_loop count
    (fun i '(positions, k) => (write3 i (treePoint count i k) positions, (k + 2)%nat))
    (positions, k).

Definition heartPoint (k : nat) : R * R * R :=
  let t := Math_random k * PI * 2 in
  let r := Math_random (k + 1) in
  let scale := 0.25 in
  let x := 16 * (sin t) ^ 3 * scale * (0.8 + r * 0.2) in
  let y := (13 * cos t - 5 * cos (2 * t) - 2 * cos (3 * t) - cos (4 * t))
           * scale * (0.8 + r * 0.2) in
  let z := (Math_random (k + 2) - 0.5) * 2 in
  (x, y, z).

Definition generateHeartPoints (count k : nat) : Float32Array * nat :=
  let positions := Float32Array_new (count * 3) in
  for_loop count
    (fun i '(positions, k) => (write3 i (heartPoint k) positions, (k + 3)%nat))
    (positions, k).

Definition spherePoint (k : nat) : R * R * R :=
  let v := fst (randomOnSphere k) in
  (Vector3.x v, Vector3.y v, Vector3.z v).

Definition generateSpherePoints (count k : nat) : Float32Array * nat :=
  let positions := Float32Array_new (count * 3) in
  for_loop count
    (fun i '(positions, k) =>
       (write3 i (spherePoint k) positions, snd (randomOnSphere k)))
    (positions, k).

Definition starPoint (k : nat) : R * R * R :=
  let theta := Math_random k * PI * 2 in
  let rBase := 3 in
  let spike := Rabs (sin (theta * 2.5)) in
  let r := rBase + spike * 2.5 in
  let x := r * cos theta * Math_random (k + 1) in
  let y := r * sin theta * Math_random (k + 2) in
  let z := (Math_random (k + 3) - 0.5) * 1.5 in
  (x, y, z).

Definition generateStarPoints (count k : nat) : Float32Array * nat :=
  let positions := Float32Array_new (count * 3) in
  for_loop count
    (fun i '(positions, k) => (write3 i (starPoint k) positions, (k + 4)%nat))
    (positions, k).

Definition flowerPoint (k0 : nat) : R * R * R :=
  let k := 4 in
  let theta := Math_random k0 * PI * 2 in
  let rMax := 4 in
  let r := rMax * cos (k * theta) * Math_random (k0 + 1) in
  let x := r * cos theta in
  let y := r * sin theta in
  let z := sin r * 1.5 + (Math_random (k0 + 2) - 0.5) in
  (x, y, z).

Definition generateFlowerPoints (count k : nat) : Float32Array * nat :=
  let positions := Float32Array_new (count * 3) in
  for_loop count
    (fun i '(positions, k) => (write3 i (flowerPoint k) positions, (k + 3)%nat))
    (positions, k).

(** The [switch (shape)] of the retargeting effect
    ([ParticleSystem.tsx], lines 73-81), for a particle count [count]. *)
Definition generate (shape : ShapeType) (count k : nat) : Float32Array * nat :=
  match shape with
  | HEART => generateHeartPoints count k
  | STAR => generateStarPoints count k
  | SPHERE => generateSpherePoints count k
  | FLOWER => generateFlowerPoints count k
  | TREE => generateTreePoints count k
  end.

(** Draws made by one iteration of a generator. *)
Definition draws (shape : ShapeType) : nat :=
  match shape with
  | TREE => 2 | HEART => 3 | SPHERE => 3 | STAR => 4 | FLOWER => 3
  end.

(** The point a generator writes in iteration [i], when [k] draws were
    made before the iteration. *)
Definition shapePoint (shape : ShapeType) (count i k : nat) : R * R * R :=
  match shape with
  | TREE => treePoint count i k
  | HEART => heartPoint k
  | SPHERE => spherePoint k
  | STAR => starPoint k
  | FLOWER => flowerPoint k
  end.

End Geometry.

(** ** Particle buffers and animation ([src/components/ParticleSystem.tsx]) *)

(** A [THREE.Color]: three channels. *)
Module Color.
Record t : Type := mk { r : R; g : R; b : R }.
End Color.

(** The four buffers the component allocates once ([useMemo], lines 24-68). *)
Record Buffers : Type := mkBuffers {
  currentPositions : Float32Array;
  targetPositions : Float32Array;
  colors : Float32Array;
  sizes : Float32Array
}.

(** The part of the [THREE.Points] object behind [pointsRef] that the
    component writes: its rotation about the vertical axis.  The position
    attribute of its geometry wraps [currentPositions] itself, so
    [positions.array.set(currentPositions)] (line 150) copies the array
    onto itself. *)
Record Points : Type := mkPoints { rotation_y : R }.

(** [spreadFactor] and [lerpSpeed] of a frame (lines 118-119). *)
Definition spreadFactor (gesture : GestureState) : R := openness gesture * 3.0.
Definition lerpSpeed (delta : R) : R := 3.0 * delta.

(** The right-hand side of [c += (t - c) * lerpSpeed] (lines 140-142). *)
Definition smooth (c t speed : R) : R := c + (t - c) * speed.

(** The smoothing of lines 140-142 on the three coordinates of a particle. *)
Definition smooth3 (speed : R) (target p : R * R * R) : R * R * R :=
  let '(tx, ty, tz) := target in
  let '(cx, cy, cz) := p in
  (smooth cx tx speed, smooth cy ty speed, smooth cz tz speed).

(** The twinkle of line 146 on the three coordinates of particle [i]:
    only the height moves. *)
Definition twinkle (time : R) (i : nat) (p : R * R * R) : R * R * R :=
  let '(x, y, z) := p in
  (x, y + sin (time + INR (i * 3)) * 0.01, z).

(** Draws made for one particle in a frame (lines 132-137). *)
Definition spreadDraws (spread : R) : nat := if Rltb 0.1 spread then 3 else 0.

(** [b] lies between [a] and [c]. *)
Definition between (a b c : R) : Prop := a <= b <= c \/ c <= b <= a.

(** Coordinate by coordinate, [q] lies between [p] and [target]. *)
Definition between3 (p q target : R * R * R) : Prop :=
  between (coord 0 p) (coord 0 q) (coord 0 target) /\
  between (coord 1 p) (coord 1 q) (coord 1 target) /\
  between (coord 2 p) (coord 2 q) (coord 2 target).

(** The rotation added to the scene in one frame (lines 156-162). *)
Definition rotationDelta (gesture : GestureState) (delta : R) : R :=
  if handDetected gesture then
    let rotationForce := (rotationX gesture - 0.5) * 2 in
    rotationForce * delta * 2
  else
    0.1 * delta.

Section ParticleSystem.

Variable Math_random : nat -> R.

(** [new THREE.Color(COLORS.MATTE_GREEN)], [(COLORS.GOLD)] and
    [(COLORS.CHRISTMAS_RED)]: the parsing of a colour string belongs to
    the rendering library. *)
Variables c1 c2 c3 : Color.t.

(** The buffers as [useMemo] creates them (lines 24-68). *)
Definition initBuffers (k : nat) : Buffers * nat :=
  let current := Float32Array_new (PARTICLE_COUNT * 3) in
  let target := Float32Array_new (PARTICLE_COUNT * 3) in
  let cols := Float32Array_new (PARTICLE_COUNT * 3) in
  let szs := Float32Array_new PARTICLE_COUNT in
  let '(initialTree, k) := generateTreePoints Math_random PARTICLE_COUNT k in
  let '(current, target, cols, szs, k) :=
    for_loop PARTICLE_COUNT
      (fun i '(current, target, cols, szs, k) =>
         let current := write3 i (rd3 initialTree i) current in
         let target := write3 i (rd3 initialTree i) target in
         let r := Math_random k in
         let tempColor :=
           if Rltb r 0.6 then c1 else if Rltb r 0.8 then c2 else c3 in
         let cols :=
           write3 i (Color.r tempColor, Color.g tempColor, Color.b tempColor) cols in
         let szs :=
           <[i := if Rltb (Math_random (k + 1)) 0.1 then 0.4 else 0.15]> szs in
         (current, target, cols, szs, (k + 2)%nat))
      (current, target, cols, szs, k) in
  (mkBuffers current target cols szs, k).

(** The effect that runs when [shape] changes (lines 71-87): a fresh
    point cloud is generated and copied into [targetPositions]. *)
Definition retarget (shape : ShapeType) (bufs : Buffers) (k : nat) : Buffers * nat :=
  let '(newPos, k) := generate Math_random shape PARTICLE_COUNT k in
  let target :=
    for_loop (PARTICLE_COUNT * 3)
      (fun i target => <[i := rd newPos i]> target)
      (targetPositions bufs) in
  (mkBuffers (currentPositions bufs) target (colors bufs) (sizes bufs), k).

(** Lines 127-137: the target of a particle, pushed away from the
    origin when the hand is open. *)
Definition adjustedTarget (spread : R) (base : R * R * R) (k : nat)
  : (R * R * R) * nat :=
  let '(tx, ty, tz) := base in
  if Rltb 0.1 spread then
    let tx := tx + (tx * spread + (Math_random k - 0.5) * spread) in
    let ty := ty + (ty * spread + (Math_random (k + 1) - 0.5) * spread) in
    let tz := tz + (tz * spread + (Math_random (k + 2) - 0.5) * spread) in
    ((tx, ty, tz), (k + 3)%nat)
  else
    ((tx, ty, tz), k).

(** One iteration of the particle loop (lines 121-147). *)
Definition frameParticle (spread speed time : R) (target : Float32Array)
    (i : nat) (st : Float32Array * nat) : Float32Array * nat :=
  let '(current, k) := st in
  let ix := (i * 3)%nat in
  let iy := (i * 3 + 1)%nat in
  let iz := (i * 3 + 2)%nat in
  let '((tx, ty, tz), k) :=
    adjustedTarget spread (rd target ix, rd target iy, rd target iz) k in
  let current := <[ix := smooth (rd current ix) tx speed]> current in
  let current := <[iy := smooth (rd current iy) ty speed]> current in
  let current := <[iz := smooth (rd current iz) tz speed]> current in
  let current := <[iy := rd current iy + sin (time + INR ix) * 0.01]> current in
  (current, k).

(** The animation callback (lines 109-163).  [pointsRef] is [None]
    while the scene object is not mounted; [delta] is the time since
    the last frame and [time] is [state.clock.elapsedTime].  [gesture]
    is the state object the component holds when the frame runs: the
    object behind [gestureRef] as of the last render of [App]. *)
Definition useFrame (pointsRef : option Points) (bufs : Buffers)
    (gesture : GestureState) (delta time : R) (k : nat)
  : option Points * Buffers * nat :=
  match pointsRef with
  | None => (None, bufs, k)
  | Some points =>
      let '(current, k) :=
        for_loop PARTICLE_COUNT
          (frameParticle (spreadFactor gesture) (lerpSpeed delta) time
                         (targetPositions bufs))
          (currentPositions bufs, k) in
      (Some (mkPoints (rotation_y points + rotationDelta gesture delta)),
       mkBuffers current (targetPositions bufs) (colors bufs) (sizes bufs),
       k)
  end.

End ParticleSystem.

(** ** Gesture interpretation ([src/App.tsx]) *)

(** How a piece of code ends: with a value, or with the uncaught
    [TypeError] of a property read on [undefined]. *)
Inductive Completion (A : Type) : Type :=
| Normal (a : A)
| TypeError.
Arguments Normal {A} a.
Arguments TypeError {A}.

#[global] Instance Completion_ret : MRet Completion := fun _ a => Normal a.
#[global] Instance Completion_bind : MBind Completion :=
  fun _ _ f c => match c with Normal a => f a | TypeError => TypeError end.

(** A landmark of the detector: normalised image coordinates. *)
Module NormalizedLandmark.
Record t : Type := mk { x : R; y : R; z : R }.
End NormalizedLandmark.

(** The detector's result: one landmark list per detected hand. *)
Record HandLandmarkerResult : Type := mkResult {
  landmarks : list (list NormalizedLandmark.t)
}.

(** [lm.x] and [lm.y] for an array element [lm] that may be [undefined]. *)
Definition get_x (lm : option NormalizedLandmark.t) : Completion R :=
  match lm with Some l => Normal (NormalizedLandmark.x l) | None => TypeError end.
Definition get_y (lm : option NormalizedLandmark.t) : Completion R :=
  match lm with Some l => Normal (NormalizedLandmark.y l) | None => TypeError end.

(** The initial value of [gestureRef] (lines 23-30). *)
Definition initialGesture : GestureState :=
  mkGesture false 0 0.5 0 false false.

(** [Math.min(Math.max(v, 0), 1)] (line 88): [v] clamped into [0, 1]. *)
Definition clamp01 (v : R) : R := Rmin (Rmax v 0) 1.

(** A gesture state with its [openness] replaced. *)
Definition withOpenness (gesture : GestureState) (v : R) : GestureState :=
  mkGesture (isOpen gesture) v (rotationX gesture) (pinchDistance gesture)
            (isPinching gesture) (handDetected gesture).

(** Lines 75-84: the average distance of the five finger tips from the wrist. *)
Definition averageTipDistance (hand : list NormalizedLandmark.t) : Completion R :=
  let wrist := hand !! 0%nat in
  let tips := [4; 8; 12; 16; 20]%nat in
  avgDist ← fold_left
    (fun acc idx =>
       avgDist ← acc;
       lx ← get_x (hand !! idx);
       wx ← get_x wrist;
       ly ← get_y (hand !! idx);
       wy ← get_y wrist;
       let dx := lx - wx in
       let dy := ly - wy in
       mret (avgDist + sqrt (dx * dx + dy * dy)))
    tips (mret 0);
  mret (avgDist / 5).

(** Lines 94-99: the distance between the thumb tip and the index tip. *)
Definition pinchDist (hand : list NormalizedLandmark.t) : Completion R :=
  let thumbTip := hand !! 4%nat in
  let indexTip := hand !! 8%nat in
  tx ← get_x thumbTip;
  ix ← get_x indexTip;
  ty ← get_y thumbTip;
  iy ← get_y indexTip;
  mret (sqrt ((tx - ix) ^ 2 + (ty - iy) ^ 2)).

(** The branch of [predictWebcam] taken when a hand is reported
    (lines 72-110). *)
Definition handFrame (hand : list NormalizedLandmark.t) : Completion GestureState :=
  avgDist ← averageTipDistance hand;
  let opennessRaw := (avgDist - 0.2) / (0.4 - 0.2) in
  let openness := clamp01 opennessRaw in
  k9 ← get_x (hand !! 9%nat);
  let rotationX := 1.0 - k9 in
  pinch ← pinchDist hand;
  let isPinching := Rltb pinch 0.05 in
  mret (mkGesture (Rltb 0.6 openness) openness rotationX pinch isPinching true).

(** The branch taken otherwise (lines 117-118): the state object is
    changed in place. *)
Definition noHandFrame (gesture : GestureState) : GestureState :=
  mkGesture (isOpen gesture)
            (Rmax 0 (openness gesture - 0.05))
            (rotationX gesture)
            (pinchDistance gesture)
            (isPinching gesture)
            false.

(** [predictWebcam] (lines 66-123) from the result of [detectHands] on:
    [results] is [None] when the detector returned [null]. *)
Definition predictWebcam (results : option HandLandmarkerResult)
    (gesture : GestureState) : Completion GestureState :=
  match results with
  | Some res =>
      match landmarks res with
      | hand :: _ => handFrame hand
      | [] => mret (noHandFrame gesture)
      end
  | None => mret (noHandFrame gesture)
  end.

(** The negation of the test of line 71: no hand is reported. *)
Definition noHand (results : option HandLandmarkerResult) : bool :=
  match results with
  | Some res => match landmarks res with [] => true | _ :: _ => false end
  | None => true
  end.

(** The distance of two landmarks in the image plane. *)
Definition landmarkDistance (a b : NormalizedLandmark.t) : R :=
  sqrt ((NormalizedLandmark.x a - NormalizedLandmark.x b) ^ 2
        + (NormalizedLandmark.y a - NormalizedLandmark.y b) ^ 2).

(** Successive video frames.  The callback reschedules itself in its
    last statement (line 122), so an exception ends the run. *)
Definition runFrames (frames : list (option HandLandmarkerResult))
    (gesture : GestureState) : Completion GestureState :=
  fold_left (fun acc results => g ← acc; predictWebcam results g)
            frames (mret gesture).


(** ** Sample data *)

(** Buffers of the component's size: every particle at the origin, every
    target at the point (1, 1, 1). *)
Definition sampleBuffers : Buffers :=
  mkBuffers (replicate (PARTICLE_COUNT * 3) 0)
            (replicate (PARTICLE_COUNT * 3) 1)
            (replicate (PARTICLE_COUNT * 3) 1)
            (replicate PARTICLE_COUNT 0.15).

(** A random source whose every draw is one half. *)
Definition sampleSource : nat -> R := fun _ => 0.5.

(** The buffers of a fresh component, with black for the three colours. *)
Definition sampleInit : Buffers * nat :=
  initBuffers sampleSource (Color.mk 0 0 0) (Color.mk 0 0 0) (Color.mk 0 0 0) 0.

(** A hand of [n] landmarks, all at the centre of the image but the
    index tip (landmark 8), which lies [d] to the right of it. *)
Definition sampleHand (n : nat) (d : R) : list NormalizedLandmark.t :=
  <[8%nat := NormalizedLandmark.mk (0.5 + d) 0.5 0]>
    (replicate n (NormalizedLandmark.mk 0.5 0.5 0)).

(** ** Statements of the specification kept for comparison *)

(** The tree point as the specification words it: the spiral point of
    the fraction [t = i / count], with a jitter on each of the three
    axes, made from the draws [ux], [uy] and [uz]. *)
Definition treePoint_spec (count i : nat) (ux uy uz : R) : R * R * R :=
  let t := INR i / INR count in
  let angle := t * (2 * PI) * 10 in
  let radius := t * 3.5 in
  (cos angle * radius + (ux - 0.5) * 0.5,
   -3 + (1 - t) * 7 + (uy - 0.5) * 0.5,
   sin angle * radius + (uz - 0.5) * 0.5).

(** ** Tactics *)

(** Goals about [Math.min] and [Math.max] of given numbers: case on the
    comparisons, then linear arithmetic. *)
Ltac solve_min_max :=
  unfold clamp01, Rmin, Rmax; repeat destruct (Rle_dec _ _); lra.

(** ** The colour effect ([src/components/ParticleSystem.tsx], lines 90-105) *)

(** The three channels of a colour, as [attr.setXYZ] receives them. *)
Definition channels (c : Color.t) : R * R * R :=
  (Color.r c, Color.g c, Color.b c).

Section Retint.

Variable Math_random : nat -> R.

(** [new THREE.Color(COLORS.GOLD)]. *)
Variable gold : Color.t.

(** The effect that runs when [customColor] changes.  The colour
    attribute of the geometry wraps the [colors] buffer, and
    [attr.setXYZ(i, r, g, b)] writes its entries [i * 3], [i * 3 + 1]
    and [i * 3 + 2].  [baseColor] is [new THREE.Color(customColor)]. *)
Definition retint (pointsRef : option Points) (baseColor : Color.t)
    (bufs : Buffers) (k : nat) : Buffers * nat :=
  match pointsRef with
  | None => (bufs, k)
  | Some _ =>
      let '(cols, k) :=
        for_loop PARTICLE_COUNT
          (fun i '(cols, k) =>
             if Rltb 0.3 (Math_random k) then
               (write3 i (channels baseColor) cols, (k + 1)%nat)
             else
               (write3 i (channels gold) cols, (k + 1)%nat))
          (colors bufs, k) in
      (mkBuffers (currentPositions bufs) (targetPositions bufs) cols (sizes bufs), k)
  end.

(** What a mounted component does to its buffers after [useMemo]: the
    two effects and the animation callback, in any order and with any
    arguments. *)
Inductive Session (start : Buffers) : Buffers -> Prop :=
| session_start : Session start start
| session_retarget (bufs : Buffers) (shape : ShapeType) (k : nat) :
    Session start bufs ->
    Session start (fst (retarget Math_random shape bufs k))
| session_retint (bufs : Buffers) (pointsRef : option Points)
    (baseColor : Color.t) (k : nat) :
    Session start bufs ->
    Session start (fst (retint pointsRef baseColor bufs k))
| session_frame (bufs : Buffers) (pointsRef : option Points)
    (gesture : GestureState) (delta time : R) (k : nat) :
    Session start bufs ->
    Session start (snd (fst (useFrame Math_random pointsRef bufs gesture delta time k))).

End Retint.

(** ** Moving a hand in the image *)

(** A landmark moved by [(dx, dy)] in the image plane. *)
Definition translate (dx dy : R) (lm : NormalizedLandmark.t) : NormalizedLandmark.t :=
  NormalizedLandmark.mk (NormalizedLandmark.x lm + dx)
                        (NormalizedLandmark.y lm + dy)
                        (NormalizedLandmark.z lm).

(** A landmark of the mirrored image. *)
Definition mirror (lm : NormalizedLandmark.t) : NormalizedLandmark.t :=
  NormalizedLandmark.mk (1 - NormalizedLandmark.x lm)
                        (NormalizedLandmark.y lm)
                        (NormalizedLandmark.z lm).

(** The distance of a finger tip from the wrist, as the loop of lines
    79-83 computes it. *)
Definition tipDistance (wrist tip : NormalizedLandmark.t) : R :=
  let dx := NormalizedLandmark.x tip - NormalizedLandmark.x wrist in
  let dy := NormalizedLandmark.y tip - NormalizedLandmark.y wrist in
  sqrt (dx * dx + dy * dy).

(** ** Frames in sequence *)

(** The twinkle of line 146 taken off a position again. *)
Definition untwinkle (time : R) (i : nat) (p : R * R * R) : R * R * R :=
  let '(x, y, z) := p in
  (x, y - sin (time + INR (i * 3)) * 0.01, z).

Section Frames.

Variable Math_random : nat -> R.

(** The adjusted target of particle [i] (lines 127-137) in a frame that
    starts after [k] draws. *)
Definition frameTarget (gesture : GestureState) (bufs : Buffers) (i k : nat)
  : R * R * R :=
  fst (adjustedTarget Math_random (spreadFactor gesture)
         (rd3 (targetPositions bufs) i)
         (k + spreadDraws (spreadFactor gesture) * i)%nat).

(** [n] successive calls of the animation callback on a mounted scene,
    with the same gesture object and the same frame time; call [j] runs
    at the clock time [clock j]. *)
Fixpoint frames (n : nat) (points : Points) (bufs : Buffers)
    (gesture : GestureState) (delta : R) (clock : nat -> R) (k : nat)
  : option Points * Buffers * nat :=
  match n with
  | O => (Some points, bufs, k)
  | S m =>
      let '(pointsRef, bufs', k') := frames m points bufs gesture delta clock k in
      useFrame Math_random pointsRef bufs' gesture delta (clock m) k'
  end.

End Frames.

(** A clock for the sample runs: frame [j] runs at [j * 0.1] seconds. *)
Definition sampleClock (j : nat) : R := INR j * 0.1.
(** * Properties *)

(** ** Loops and typed arrays *)

Lemma for_loop_0 {S : Type} (body : nat -> S -> S) (s : S) :
  for_loop 0 body s = s.
Proof. reflexivity. Qed.

Lemma for_loop_S {S : Type} (n : nat) (body : nat -> S -> S) (s : S) :
  for_loop (Datatypes.S n) body s = body n (for_loop n body s).
Proof.
  unfold for_loop. rewrite seq_S, fold_left_app. reflexivity.
Qed.

(** A property kept by every iteration holds after the loop. *)
Lemma for_loop_inv {S : Type} (P : nat -> S -> Prop) (n : nat)
    (body : nat -> S -> S) (s : S) :
  P 0%nat s ->
  (forall i acc, (i < n)%nat -> P i acc -> P (Datatypes.S i) (body i acc)) ->
  P n (for_loop n body s).
Proof.
  intros H0 Hstep.
  assert (Hm : forall m, (m <= n)%nat -> P m (for_loop m body s)).
  { induction m as [|m IH]; intros Hle.
    - exact H0.
    - rewrite for_loop_S. apply Hstep; [lia|]. apply IH. lia. }
  apply Hm. lia.
Qed.

Lemma rd_lookup (buf : Float32Array) (i : nat) (v : R) :
  buf !! i = Some v -> rd buf i = v.
Proof. unfold rd. intros ->. reflexivity. Qed.

Lemma lookup_rd (buf : Float32Array) (i : nat) :
  (i < length buf)%nat -> buf !! i = Some (rd buf i).
Proof.
  intros Hi. destruct (lookup_lt_is_Some_2 buf i Hi) as [v Hv].
  rewrite (rd_lookup _ _ _ Hv). exact Hv.
Qed.

Lemma rd_insert_eq (buf : Float32Array) (i : nat) (v : R) :
  (i < length buf)%nat -> rd (<[i := v]> buf) i = v.
Proof.
  intros Hi. apply rd_lookup. apply list_lookup_insert_eq. exact Hi.
Qed.

Lemma rd_insert_ne (buf : Float32Array) (i j : nat) (v : R) :
  i <> j -> rd (<[i := v]> buf) j = rd buf j.
Proof.
  intros Hne. unfold rd. rewrite list_lookup_insert_ne by exact Hne. reflexivity.
Qed.

Lemma length_write3 (i : nat) (p : R * R * R) (buf : Float32Array) :
  length (write3 i p buf) = length buf.
Proof.
  destruct p as [[x y] z]. unfold write3. rewrite !length_insert. reflexivity.
Qed.

Lemma rd3_write3_eq (i : nat) (p : R * R * R) (buf : Float32Array) :
  (i * 3 + 2 < length buf)%nat -> rd3 (write3 i p buf) i = p.
Proof.
  destruct p as [[x y] z]. intros Hi. unfold rd3, write3.
  rewrite (rd_insert_ne _ (i * 3 + 2) (i * 3)) by lia.
  rewrite (rd_insert_ne _ (i * 3 + 1) (i * 3)) by lia.
  rewrite (rd_insert_ne _ (i * 3 + 2) (i * 3 + 1)) by lia.
  rewrite !rd_insert_eq by (rewrite ?length_insert; lia).
  reflexivity.
Qed.

Lemma lookup_write3_other (i j : nat) (p : R * R * R) (buf : Float32Array) :
  (j < i * 3 \/ i * 3 + 2 < j)%nat -> write3 i p buf !! j = buf !! j.
Proof.
  destruct p as [[x y] z]. intros Hj. unfold write3.
  rewrite !list_lookup_insert_ne by lia. reflexivity.
Qed.

Lemma rd3_write3_ne (i j : nat) (p : R * R * R) (buf : Float32Array) :
  i <> j -> rd3 (write3 i p buf) j = rd3 buf j.
Proof.
  intros Hne. unfold rd3, rd.
  rewrite !lookup_write3_other by lia. reflexivity.
Qed.

Lemma particle_rd3 (buf : Float32Array) (i : nat) :
  (i * 3 + 2 < length buf)%nat -> particle buf i = Some (rd3 buf i).
Proof.
  intros Hi. unfold particle, rd3.
  rewrite (lookup_rd buf (i * 3)) by lia.
  rewrite (lookup_rd buf (i * 3 + 1)) by lia.
  rewrite (lookup_rd buf (i * 3 + 2)) by lia.
  reflexivity.
Qed.

(** A loop that rewrites particle [i] in iteration [i], from the
    particle's own entries and the draws made so far, [d] draws per
    iteration: afterwards particle [i < n] holds what its iteration
    computed, and the entries from [n * 3] on are untouched. *)
Lemma for_loop_particles (N d : nat) (f : nat -> R * R * R -> nat -> R * R * R)
    (body : nat -> Float32Array * nat -> Float32Array * nat)
    (buf0 : Float32Array) (k0 : nat) :
  length buf0 = (N * 3)%nat ->
  (forall i buf k, (i < N)%nat -> length buf = (N * 3)%nat ->
     body i (buf, k) = (write3 i (f i (rd3 buf i) k) buf, (k + d)%nat)) ->
  forall n, (n <= N)%nat ->
    length (fst (for_loop n body (buf0, k0))) = (N * 3)%nat /\
    snd (for_loop n body (buf0, k0)) = (k0 + d * n)%nat /\
    (forall i, (i < n)%nat ->
       rd3 (fst (for_loop n body (buf0, k0))) i = f i (rd3 buf0 i) (k0 + d * i)%nat) /\
    (forall j, (n * 3 <= j)%nat ->
       fst (for_loop n body (buf0, k0)) !! j = buf0 !! j).
Proof.
  intros Hlen Hbody. induction n as [|n IH]; intros Hn.
  - rewrite for_loop_0. simpl. repeat split; try lia; auto.
  - destruct IH as (IHlen & IHk & IHdone & IHrest); [lia|].
    rewrite for_loop_S.
    destruct (for_loop n body (buf0, k0)) as [buf k] eqn:E.
    simpl in IHlen, IHk, IHdone, IHrest.
    rewrite Hbody by (lia || assumption). simpl.
    assert (Hsame : rd3 buf n = rd3 buf0 n).
    { unfold rd3, rd. rewrite !IHrest by lia. reflexivity. }
    repeat split.
    + rewrite length_write3. exact IHlen.
    + lia.
    + intros i Hi. destruct (decide (i = n)) as [->|Hne].
      * rewrite rd3_write3_eq by lia. rewrite Hsame, IHk. reflexivity.
      * rewrite rd3_write3_ne by lia. apply IHdone. lia.
    + intros j Hj. rewrite lookup_write3_other by lia. apply IHrest. lia.
Qed.

(** A loop whose body agrees with another body on the states it meets. *)
Lemma for_loop_ext {S : Type} (n : nat) (body body' : nat -> S -> S) (s : S) :
  (forall i acc, (i < n)%nat -> body i acc = body' i acc) ->
  for_loop n body s = for_loop n body' s.
Proof.
  intros Hext. induction n as [|n IH].
  - reflexivity.
  - rewrite !for_loop_S, IH by (intros; apply Hext; lia).
    apply Hext. lia.
Qed.

(** ** Shape generators *)

Lemma length_Float32Array_new (n : nat) : length (Float32Array_new n) = n.
Proof. apply length_replicate. Qed.

Lemma particle_entry (buf : Float32Array) (i c : nat) (p : R * R * R) :
  particle buf i = Some p -> (c < 3)%nat -> buf !! (i * 3 + c)%nat = Some (coord c p).
Proof.
  unfold particle. intros Hp Hc.
  destruct (buf !! (i * 3)%nat) as [x|] eqn:Ex; [|discriminate].
  destruct (buf !! (i * 3 + 1)%nat) as [y|] eqn:Ey; [|discriminate].
  destruct (buf !! (i * 3 + 2)%nat) as [z|] eqn:Ez; [|discriminate].
  injection Hp as <-.
  destruct c as [|[|[|c]]]; simpl; try lia.
  - rewrite Nat.add_0_r. exact Ex.
  - exact Ey.
  - exact Ez.
Qed.

Section GeometryProperties.

Variable Math_random : nat -> R.

(** What every generator computes: [count * 3] entries, particle [i]
    being the point of iteration [i], with [draws shape] draws per
    iteration. *)
Lemma generate_spec (shape : ShapeType) (count k : nat) :
  length (fst (generate Math_random shape count k)) = (count * 3)%nat /\
  snd (generate Math_random shape count k) = (k + draws shape * count)%nat /\
  (forall i, (i < count)%nat ->
     rd3 (fst (generate Math_random shape count k)) i
     = shapePoint Math_random shape count i (k + draws shape * i)%nat).
Proof.
  assert (Hgen : forall (d : nat) (pt : nat -> nat -> R * R * R),
    let loop := for_loop count
      (fun i '(positions, k) => (write3 i (pt i k) positions, (k + d)%nat))
      (Float32Array_new (count * 3), k) in
    length (fst loop) = (count * 3)%nat /\
    snd loop = (k + d * count)%nat /\
    (forall i, (i < count)%nat -> rd3 (fst loop) i = pt i (k + d * i)%nat)).
  { intros d pt loop. subst loop.
    destruct (for_loop_particles count d (fun i _ k => pt i k)
                (fun i '(positions, k) => (write3 i (pt i k) positions, (k + d)%nat))
                (Float32Array_new (count * 3)) k) with (n := count)
      as (Hlen & Hk & Hpts & _).
    - apply length_Float32Array_new.
    - intros i buf k' _ _. reflexivity.
    - lia.
    - auto. }
  destruct shape; simpl.
  - apply (Hgen 2%nat (fun i k => treePoint Math_random count i k)).
  - apply (Hgen 3%nat (fun _ k => heartPoint Math_random k)).
  - apply (Hgen 4%nat (fun _ k => starPoint Math_random k)).
  - apply (Hgen 3%nat (fun _ k => spherePoint Math_random k)).
  - apply (Hgen 3%nat (fun _ k => flowerPoint Math_random k)).
Qed.

Lemma generate_length (shape : ShapeType) (count k : nat) :
  length (fst (generate Math_random shape count k)) = (count * 3)%nat.
Proof. apply generate_spec. Qed.

Lemma generate_particle (shape : ShapeType) (count k i : nat) :
  (i < count)%nat ->
  particle (fst (generate Math_random shape count k)) i
  = Some (shapePoint Math_random shape count i (k + draws shape * i)%nat).
Proof.
  intros Hi. destruct (generate_spec shape count k) as (Hlen & _ & Hpts).
  rewrite particle_rd3 by (rewrite Hlen; lia).
  rewrite Hpts by exact Hi. reflexivity.
Qed.

(** C3.  For each of the five shapes and every [count], the generator
    returns a flat array of exactly [3 * count] entries, that is [count]
    points; every entry has been written: entry [i * 3 + c] is
    coordinate [c] of the point computed by iteration [i]; and for
    [count = 0] the result is the empty array. *)
Theorem generate_count_contract (shape : ShapeType) (count k : nat) :
  length (fst (generate Math_random shape count k)) = (3 * count)%nat /\
  (forall i, (i < count)%nat ->
     particle (fst (generate Math_random shape count k)) i
     = Some (shapePoint Math_random shape count i (k + draws shape * i)%nat)) /\
  (forall i c, (i < count)%nat -> (c < 3)%nat ->
     fst (generate Math_random shape count k) !! (i * 3 + c)%nat
     = Some (coord c (shapePoint Math_random shape count i (k + draws shape * i)%nat))) /\
  generate Math_random shape 0 k = ([], k).
Proof.
  repeat split.
  - rewrite generate_length. lia.
  - intros i Hi. apply generate_particle. exact Hi.
  - intros i c Hi Hc. apply particle_entry; [|exact Hc].
    apply generate_particle. exact Hi.
  - destruct shape; reflexivity.
Qed.

(** The norm of a sphere point is the radius drawn for it. *)
Lemma norm3_spherePoint (k : nat) :
  0 <= Math_random (k + 2) ->
  norm3 (spherePoint Math_random k) = 4 + Math_random (k + 2).
Proof.
  intros Hr. unfold spherePoint, randomOnSphere, norm3. simpl.
  set (theta := Math_random k * PI * 2).
  set (phi := acos (2 * Math_random (k + 1) - 1)).
  set (r := 4 + Math_random (k + 2)).
  assert (E : r * sin phi * cos theta * (r * sin phi * cos theta)
              + r * sin phi * sin theta * (r * sin phi * sin theta)
              + r * cos phi * (r * cos phi)
              = r * r * ((sin phi)² * ((sin theta)² + (cos theta)²) + (cos phi)²)).
  { unfold Rsqr. ring. }
  rewrite E, sin2_cos2, Rmult_1_r, sin2_cos2, Rmult_1_r.
  apply sqrt_square. subst r. lra.
Qed.

(** The tree point of iteration [i], in the words of the formula. *)
Lemma treePoint_formula (count i k : nat) :
  let t := INR i / INR count in
  let angle := t * (2 * PI) * 10 in
  let radius := 3.5 * t in
  treePoint Math_random count i k
  = (cos angle * radius + (Math_random k - 0.5) * 0.5,
     4 - 7 * t,
     sin angle * radius + (Math_random (k + 1) - 0.5) * 0.5).
Proof.
  intros t angle radius. unfold treePoint. fold t.
  replace (t * PI * 20) with angle by (subst angle; ring).
  replace (t * 3.5) with radius by (subst radius; ring).
  replace (-3 + (1 - t) * 7) with (4 - 7 * t) by ring.
  reflexivity.
Qed.

(** The fraction [i / count] of an index inside the loop. *)
Lemma index_fraction (count i : nat) :
  (i < count)%nat -> 0 <= INR i / INR count < 1.
Proof.
  intros Hi.
  assert (Hc : 0 < INR count) by (apply lt_0_INR; lia).
  assert (Hi0 : 0 <= INR i) by apply pos_INR.
  assert (Hic : INR i < INR count) by (apply lt_INR; exact Hi).
  split.
  - apply Rmult_le_pos; [exact Hi0|]. left. apply Rinv_0_lt_compat. exact Hc.
  - apply (Rmult_lt_reg_r (INR count)); [exact Hc|].
    unfold Rdiv. rewrite Rmult_assoc, Rinv_l by lra. lra.
Qed.

Hypothesis Math_random_range : forall k, 0 <= Math_random k < 1.

(** C7.  Every point the sphere generator produces lies in the shell
    between the radii 4 and 5: its distance from the origin is the
    radius [4 + Math.random()] drawn for it. *)
Theorem sphere_shell_bound (count k i : nat) :
  (i < count)%nat ->
  exists p,
    particle (fst (generateSpherePoints Math_random count k)) i = Some p /\
    norm3 p = 4 + Math_random (k + 3 * i + 2) /\
    4 <= norm3 p <= 5.
Proof.
  intros Hi.
  exists (spherePoint Math_random (k + 3 * i)).
  split; [exact (generate_particle SPHERE count k i Hi)|].
  pose proof (Math_random_range (k + 3 * i + 2)) as Hr.
  rewrite norm3_spherePoint by lra.
  split; [reflexivity | lra].
Qed.

(** C8 (amended).  For [i < count], the [i]-th tree point is built from
    the fraction [t = i / count]: spiral angle [t * 2 pi * 10], radius
    [3.5 * t], height [4 - 7 * t], and a jitter of at most a quarter
    added on the two horizontal axes x and z; the height carries no
    jitter. *)
Theorem tree_point_formula (count k i : nat) :
  (i < count)%nat ->
  let t := INR i / INR count in
  let angle := t * (2 * PI) * 10 in
  let radius := 3.5 * t in
  let jx := (Math_random (k + 2 * i) - 0.5) * 0.5 in
  let jz := (Math_random (k + 2 * i + 1) - 0.5) * 0.5 in
  particle (fst (generateTreePoints Math_random count k)) i
  = Some (cos angle * radius + jx, 4 - 7 * t, sin angle * radius + jz) /\
  0 <= t < 1 /\
  -0.25 <= jx < 0.25 /\
  -0.25 <= jz < 0.25.
Proof.
  intros Hi t angle radius jx jz.
  split; [|split; [|split]].
  - pose proof (generate_particle TREE count k i Hi) as Hp.
    change (particle (fst (generateTreePoints Math_random count k)) i
            = Some (treePoint Math_random count i (k + 2 * i))) in Hp.
    rewrite Hp, treePoint_formula. reflexivity.
  - apply index_fraction. exact Hi.
  - pose proof (Math_random_range (k + 2 * i)). subst jx. lra.
  - pose proof (Math_random_range (k + 2 * i + 1)). subst jz. lra.
Qed.

End GeometryProperties.

(** A constant random source, for the concrete runs below. *)
Lemma constant_source_range (u : R) :
  0 <= u < 1 -> forall k : nat, 0 <= (fun _ : nat => u) k < 1.
Proof. intros Hu k. exact Hu. Qed.

(** The first point of a one-point sphere when every draw is one half. *)
Lemma sphere_shell_bound_witness :
  (forall k : nat, 0 <= (fun _ : nat => 0.5) k < 1) /\
  (0 < 1)%nat /\
  exists p,
    particle (fst (generateSpherePoints (fun _ => 0.5) 1 0)) 0 = Some p /\
    norm3 p = 4 + 0.5 /\
    4 <= norm3 p <= 5.
Proof.
  split; [intros k; lra|].
  split; [lia|].
  apply (sphere_shell_bound (fun _ => 0.5)); [intros k; lra | lia].
Defined.

(** The second point of a two-point tree when every draw is one half. *)
Lemma tree_point_formula_witness :
  (forall k : nat, 0 <= (fun _ : nat => 0.5) k < 1) /\
  (1 < 2)%nat /\
  particle (fst (generateTreePoints (fun _ => 0.5) 2 0)) 1
  = Some (cos (INR 1 / INR 2 * (2 * PI) * 10) * (3.5 * (INR 1 / INR 2))
            + (0.5 - 0.5) * 0.5,
          4 - 7 * (INR 1 / INR 2),
          sin (INR 1 / INR 2 * (2 * PI) * 10) * (3.5 * (INR 1 / INR 2))
            + (0.5 - 0.5) * 0.5).
Proof.
  split; [intros k; lra|].
  split; [lia|].
  apply (tree_point_formula (fun _ => 0.5)); [intros k; lra | lia].
Defined.

(** The first point of a one-point tree when every draw returns 0: the
    two horizontal coordinates carry the jitter [-0.25], the height is
    exactly 4. *)
Lemma tree_first_point_zero_draws :
  particle (fst (generateTreePoints (fun _ => 0) 1 0)) 0 = Some (-0.25, 4, -0.25).
Proof.
  pose proof (generate_particle (fun _ => 0) TREE 1 0 0 ltac:(lia)) as Hp.
  change (particle (fst (generateTreePoints (fun _ => 0) 1 0)) 0
          = Some (treePoint (fun _ => 0) 1 0 (0 + 2 * 0))) in Hp.
  rewrite Hp. unfold treePoint. simpl INR.
  replace (0 / 1 * PI * 20) with 0 by (unfold Rdiv; ring).
  rewrite cos_0, sin_0.
  f_equal. f_equal; [f_equal|]; lra.
Qed.

(** C8, counterexample.  With every draw equal to 0 the jitter of the
    specification's wording lowers the height of the first point of a
    one-point tree to 3.75; the generator returns the height 4. *)
Lemma tree_height_has_no_jitter :
  particle (fst (generateTreePoints (fun _ => 0) 1 0)) 0 = Some (-0.25, 4, -0.25) /\
  treePoint_spec 1 0 0 0 0 = (-0.25, 3.75, -0.25) /\
  particle (fst (generateTreePoints (fun _ => 0) 1 0)) 0
  <> Some (treePoint_spec 1 0 0 0 0).
Proof.
  assert (Hspec : treePoint_spec 1 0 0 0 0 = (-0.25, 3.75, -0.25)).
  { unfold treePoint_spec. simpl INR.
    replace (0 / 1 * (2 * PI) * 10) with 0 by (unfold Rdiv; ring).
    rewrite cos_0, sin_0.
    f_equal; [f_equal|]; lra. }
  split; [exact tree_first_point_zero_draws|].
  split; [exact Hspec|].
  rewrite tree_first_point_zero_draws, Hspec.
  intros Heq. injection Heq as Hy. lra.
Qed.

(** ** Smoothing *)

Lemma Rltb_true (a b : R) : Rltb a b = true <-> a < b.
Proof.
  unfold Rltb. destruct (Rlt_dec a b) as [H|H]; split; intros;
    try reflexivity; try discriminate; lra.
Qed.

Lemma Rltb_false (a b : R) : Rltb a b = false <-> b <= a.
Proof.
  unfold Rltb. destruct (Rlt_dec a b) as [H|H]; split; intros;
    try reflexivity; try discriminate; lra.
Qed.

Lemma smooth_error (c t speed : R) :
  smooth c t speed - t = (1 - speed) * (c - t).
Proof. unfold smooth. ring. Qed.

Lemma smooth_between (c t speed : R) :
  0 < speed < 1 -> between c (smooth c t speed) t.
Proof.
  intros Hs. unfold between, smooth.
  destruct (Rle_dec c t) as [Hle|Hgt]; [left | right]; nra.
Qed.

Lemma smooth_fixed (t speed : R) : smooth t t speed = t.
Proof. unfold smooth. ring. Qed.

Lemma sum_squares_nonneg (a b c : R) : 0 <= a * a + b * b + c * c.
Proof. nra. Qed.

Lemma dist3_smooth3 (speed : R) (target p : R * R * R) :
  speed <= 1 ->
  dist3 (smooth3 speed target p) target = (1 - speed) * dist3 p target.
Proof.
  intros Hs. destruct target as [[tx ty] tz], p as [[cx cy] cz].
  unfold dist3, smooth3, norm3. rewrite !smooth_error.
  replace ((1 - speed) * (cx - tx) * ((1 - speed) * (cx - tx))
           + (1 - speed) * (cy - ty) * ((1 - speed) * (cy - ty))
           + (1 - speed) * (cz - tz) * ((1 - speed) * (cz - tz)))
    with ((1 - speed) * (1 - speed)
          * ((cx - tx) * (cx - tx) + (cy - ty) * (cy - ty) + (cz - tz) * (cz - tz)))
    by ring.
  rewrite sqrt_mult by (try apply sum_squares_nonneg; nra).
  rewrite sqrt_square by lra. reflexivity.
Qed.

Lemma dist3_pos (p target : R * R * R) :
  p <> target -> 0 < dist3 p target.
Proof.
  destruct target as [[tx ty] tz], p as [[cx cy] cz]. intros Hne.
  unfold dist3, norm3. apply sqrt_lt_R0.
  assert (Hsq : forall a b : R, a <> b -> 0 < (a - b) * (a - b)).
  { intros a b Hab. apply (Rsqr_pos_lt (a - b)). lra. }
  pose proof (Rle_0_sqr (cx - tx)) as Hx0.
  pose proof (Rle_0_sqr (cy - ty)) as Hy0.
  pose proof (Rle_0_sqr (cz - tz)) as Hz0.
  unfold Rsqr in Hx0, Hy0, Hz0.
  destruct (Req_dec cx tx) as [Hx|Hx]; [|pose proof (Hsq _ _ Hx); lra].
  destruct (Req_dec cy ty) as [Hy|Hy]; [|pose proof (Hsq _ _ Hy); lra].
  destruct (Req_dec cz tz) as [Hz|Hz]; [|pose proof (Hsq _ _ Hz); lra].
  subst. contradiction.
Qed.

Lemma smooth3_between3 (speed : R) (target p : R * R * R) :
  0 < speed < 1 -> between3 p (smooth3 speed target p) target.
Proof.
  intros Hs. destruct target as [[tx ty] tz], p as [[cx cy] cz].
  unfold between3, smooth3. simpl. auto using smooth_between.
Qed.

Lemma smooth3_fixed (speed : R) (target : R * R * R) :
  smooth3 speed target target = target.
Proof.
  destruct target as [[tx ty] tz]. unfold smooth3. rewrite !smooth_fixed. reflexivity.
Qed.

(** After [n] steps the distance to the target has shrunk by the factor
    [(1 - speed) ^ n]. *)
Lemma dist3_smooth3_iter (speed : R) (target p : R * R * R) (n : nat) :
  speed <= 1 ->
  dist3 (Nat.iter n (smooth3 speed target) p) target
  = (1 - speed) ^ n * dist3 p target.
Proof.
  intros Hs. induction n as [|n IH]; simpl.
  - ring.
  - rewrite dist3_smooth3 by exact Hs. rewrite IH. ring.
Qed.

(** One smoothing step towards a target, for a speed between 0 and 1:
    the distance strictly decreases while the position differs from the
    target, the new position lies between the old one and the target on
    every axis, and the target is a fixed point. *)
Lemma smooth3_step (speed : R) (target p : R * R * R) :
  0 < speed < 1 ->
  (p <> target -> dist3 (smooth3 speed target p) target < dist3 p target) /\
  between3 p (smooth3 speed target p) target /\
  smooth3 speed target target = target.
Proof.
  intros Hs. split; [|split].
  - intros Hne. rewrite dist3_smooth3 by lra.
    pose proof (dist3_pos p target Hne). nra.
  - apply smooth3_between3. exact Hs.
  - apply smooth3_fixed.
Qed.

(** With [deltaTime = 0.5] the step is 1.5 times the error and the
    position passes the target: the bound on [lerpSpeed] is needed. *)
Lemma smooth_overshoots_beyond_unit_speed :
  smooth 0 1 (lerpSpeed 0.5) = 1.5 /\ ~ between 0 (smooth 0 1 (lerpSpeed 0.5)) 1.
Proof.
  assert (E : smooth 0 1 (lerpSpeed 0.5) = 1.5) by (unfold smooth, lerpSpeed; lra).
  split; [exact E|]. rewrite E. unfold between. lra.
Qed.

(** ** The animation callback *)

Section ParticleSystemProperties.

Variable Math_random : nat -> R.
Variables c1 c2 c3 : Color.t.

Lemma adjustedTarget_draws (spread : R) (base : R * R * R) (k : nat) :
  snd (adjustedTarget Math_random spread base k) = (k + spreadDraws spread)%nat.
Proof.
  destruct base as [[tx ty] tz]. unfold adjustedTarget, spreadDraws.
  destruct (Rltb 0.1 spread); simpl; lia.
Qed.

(** Below the threshold of line 132 the target is the shape's point. *)
Lemma adjustedTarget_closed (spread : R) (base : R * R * R) (k : nat) :
  spread <= 0.1 -> adjustedTarget Math_random spread base k = (base, k).
Proof.
  intros Hs. destruct base as [[tx ty] tz]. unfold adjustedTarget.
  rewrite (proj2 (Rltb_false 0.1 spread)) by exact Hs. reflexivity.
Qed.

(** One iteration of the particle loop rewrites the three entries of
    its particle: smoothing towards the adjusted target, then the
    twinkle on the height. *)
Lemma frameParticle_write3 (spread speed time : R) (target current : Float32Array)
    (i k : nat) :
  (i * 3 + 2 < length current)%nat ->
  frameParticle Math_random spread speed time target i (current, k)
  = (write3 i
       (twinkle time i
          (smooth3 speed (fst (adjustedTarget Math_random spread (rd3 target i) k))
                   (rd3 current i)))
       current,
     (k + spreadDraws spread)%nat).
Proof.
  intros Hi. unfold frameParticle.
  rewrite <- (adjustedTarget_draws spread (rd3 target i) k).
  change (rd target (i * 3), rd target (i * 3 + 1), rd target (i * 3 + 2))
    with (rd3 target i).
  destruct (adjustedTarget Math_random spread (rd3 target i) k) as [[[tx ty] tz] k'].
  simpl fst. simpl snd. unfold rd3 at 1. unfold smooth3, twinkle, write3.
  f_equal.
  rewrite (rd_insert_ne _ (i * 3) (i * 3 + 1)) by lia.
  rewrite (rd_insert_ne _ (i * 3 + 1) (i * 3 + 2)) by lia.
  rewrite (rd_insert_ne _ (i * 3) (i * 3 + 2)) by lia.
  rewrite (rd_insert_ne _ (i * 3 + 2) (i * 3 + 1)) by lia.
  rewrite rd_insert_eq by (rewrite ?length_insert; lia).
  rewrite (list_insert_insert_ne _ (i * 3 + 1) (i * 3 + 2)) by lia.
  rewrite list_insert_insert_eq.
  reflexivity.
Qed.

(** The particle loop of a frame, particle by particle. *)
Lemma frame_loop_spec (spread speed time : R) (target current : Float32Array)
    (k : nat) :
  length current = (PARTICLE_COUNT * 3)%nat ->
  let loop := for_loop PARTICLE_COUNT
                (frameParticle Math_random spread speed time target) (current, k) in
  length (fst loop) = (PARTICLE_COUNT * 3)%nat /\
  snd loop = (k + spreadDraws spread * PARTICLE_COUNT)%nat /\
  (forall i, (i < PARTICLE_COUNT)%nat ->
     rd3 (fst loop) i
     = twinkle time i
         (smooth3 speed
            (fst (adjustedTarget Math_random spread (rd3 target i)
                    (k + spreadDraws spread * i)%nat))
            (rd3 current i))).
Proof.
  intros Hlen loop. subst loop.
  destruct (for_loop_particles PARTICLE_COUNT (spreadDraws spread)
              (fun i p k =>
                 twinkle time i
                   (smooth3 speed
                      (fst (adjustedTarget Math_random spread (rd3 target i) k)) p))
              (frameParticle Math_random spread speed time target)
              current k Hlen) with (n := PARTICLE_COUNT)
    as (Hl & Hk & Hpts & _).
  - intros i buf k' Hi Hbuf. apply frameParticle_write3. lia.
  - lia.
  - auto.
Qed.

(** The effect of a frame on a mounted scene: every particle is smoothed
    towards its adjusted target and twinkled, the other buffers are kept,
    and the rotation grows by [rotationDelta]. *)
Lemma useFrame_spec (points : Points) (bufs : Buffers) (gesture : GestureState)
    (delta time : R) (k : nat) :
  length (currentPositions bufs) = (PARTICLE_COUNT * 3)%nat ->
  exists current',
    useFrame Math_random (Some points) bufs gesture delta time k
    = (Some (mkPoints (rotation_y points + rotationDelta gesture delta)),
       mkBuffers current' (targetPositions bufs) (colors bufs) (sizes bufs),
       (k + spreadDraws (spreadFactor gesture) * PARTICLE_COUNT)%nat) /\
    length current' = (PARTICLE_COUNT * 3)%nat /\
    (forall i, (i < PARTICLE_COUNT)%nat ->
       rd3 current' i
       = twinkle time i
           (smooth3 (lerpSpeed delta)
              (fst (adjustedTarget Math_random (spreadFactor gesture)
                      (rd3 (targetPositions bufs) i)
                      (k + spreadDraws (spreadFactor gesture) * i)%nat))
              (rd3 (currentPositions bufs) i))).
Proof.
  intros Hlen.
  destruct (frame_loop_spec (spreadFactor gesture) (lerpSpeed delta) time
              (targetPositions bufs) (currentPositions bufs) k Hlen)
    as (Hl & Hk & Hpts).
  unfold useFrame.
  destruct (for_loop PARTICLE_COUNT _ _) as [current' k'].
  cbn [fst snd] in Hl, Hk, Hpts. subst k'.
  exists current'. repeat split; assumption.
Qed.

(** With the hand closed ([spreadFactor] at most 0.1) no draw is made and
    every particle is smoothed towards the point of the shape itself. *)
Lemma useFrame_closed_hand (points : Points) (bufs : Buffers) (gesture : GestureState)
    (delta time : R) (k : nat) :
  length (currentPositions bufs) = (PARTICLE_COUNT * 3)%nat ->
  spreadFactor gesture <= 0.1 ->
  forall i, (i < PARTICLE_COUNT)%nat ->
    rd3 (currentPositions
           (snd (fst (useFrame Math_random (Some points) bufs gesture delta time k)))) i
    = twinkle time i
        (smooth3 (lerpSpeed delta) (rd3 (targetPositions bufs) i)
                 (rd3 (currentPositions bufs) i)).
Proof.
  intros Hlen Hs i Hi.
  destruct (useFrame_spec points bufs gesture delta time k Hlen)
    as (current' & Heq & _ & Hpts).
  rewrite Heq. cbn [fst snd currentPositions].
  rewrite Hpts by exact Hi.
  rewrite adjustedTarget_closed by exact Hs. reflexivity.
Qed.

(** C2.  For a positive [deltaTime]: with a hand detected, the rotation
    added by a frame is [(rotationX - 0.5) * 2 * rotationGain * deltaTime]
    with [rotationGain = 2], hence positive to the right of the centre
    (0.8), negative to the left (0.2) and zero at the centre (0.5);
    without a hand it is [0.1 * deltaTime], the same for every
    [rotationX] and every other field of the gesture. *)
Theorem rotation_sign (points : Points) (bufs : Buffers) (gesture : GestureState)
    (delta time : R) (k : nat) :
  0 < delta ->
  fst (fst (useFrame Math_random (Some points) bufs gesture delta time k))
  = Some (mkPoints (rotation_y points + rotationDelta gesture delta)) /\
  (handDetected gesture = true ->
     rotationDelta gesture delta = (rotationX gesture - 0.5) * 2 * 2 * delta /\
     (0.5 < rotationX gesture -> 0 < rotationDelta gesture delta) /\
     (rotationX gesture < 0.5 -> rotationDelta gesture delta < 0) /\
     (rotationX gesture = 0.8 -> 0 < rotationDelta gesture delta) /\
     (rotationX gesture = 0.2 -> rotationDelta gesture delta < 0) /\
     (rotationX gesture = 0.5 -> rotationDelta gesture delta = 0)) /\
  (handDetected gesture = false ->
     rotationDelta gesture delta = 0.1 * delta /\
     forall other : GestureState,
       handDetected other = false ->
       rotationDelta other delta = rotationDelta gesture delta).
Proof.
  intros Hd. split; [|split].
  - unfold useFrame. destruct (for_loop PARTICLE_COUNT _ _) as [current' k'].
    reflexivity.
  - intros Hh. unfold rotationDelta. rewrite Hh.
    repeat split; intros; nra.
  - intros Hh. unfold rotationDelta. rewrite Hh. split; [reflexivity|].
    intros other Ho. rewrite Ho. reflexivity.
Qed.

(** A frame does not read [openness] below the threshold of line 132. *)
Lemma frameParticle_closed (spread spread' speed time : R) (target : Float32Array)
    (i : nat) (st : Float32Array * nat) :
  spread <= 0.1 -> spread' <= 0.1 ->
  frameParticle Math_random spread speed time target i st
  = frameParticle Math_random spread' speed time target i st.
Proof.
  intros Hs Hs'. destruct st as [current k]. unfold frameParticle.
  rewrite !adjustedTarget_closed by assumption. reflexivity.
Qed.

Lemma clamp01_inside (v : R) : 0 <= v <= 1 -> clamp01 v = v.
Proof.
  intros Hv. solve_min_max.
Qed.

Lemma clamp01_below (v : R) : v <= 0 -> clamp01 v = 0.
Proof.
  intros Hv. solve_min_max.
Qed.

Lemma clamp01_above (v : R) : 1 <= v -> clamp01 v = 1.
Proof.
  intros Hv. solve_min_max.
Qed.

Lemma clamp01_range (v : R) : 0 <= clamp01 v <= 1.
Proof.
  solve_min_max.
Qed.

(** C5 (amended).  The animation step is a total function with no error
    outcome, and it uses [openness] as it receives it.  For an
    [openness] of at most 1, in particular for every value in [0, 1]
    and for every value below 0, the step computes what it computes
    with [openness] clamped into [0, 1]. *)
Theorem useFrame_openness_at_most_one (pointsRef : option Points) (bufs : Buffers)
    (gesture : GestureState) (delta time : R) (k : nat) :
  openness gesture <= 1 ->
  useFrame Math_random pointsRef bufs gesture delta time k
  = useFrame Math_random pointsRef bufs
      (withOpenness gesture (clamp01 (openness gesture))) delta time k.
Proof.
  intros Hle. destruct (Rle_dec 0 (openness gesture)) as [Hpos|Hneg].
  - rewrite clamp01_inside by lra. destruct gesture; reflexivity.
  - rewrite clamp01_below by lra.
    destruct pointsRef as [points|]; [|reflexivity].
    unfold useFrame.
    rewrite (for_loop_ext PARTICLE_COUNT
               (frameParticle Math_random (spreadFactor gesture) (lerpSpeed delta) time
                  (targetPositions bufs))
               (frameParticle Math_random (spreadFactor (withOpenness gesture 0))
                  (lerpSpeed delta) time (targetPositions bufs))).
    + reflexivity.
    + intros i acc _. apply frameParticle_closed; unfold spreadFactor; simpl; lra.
Qed.

(** The copying loop of the retargeting effect (lines 84-86). *)
Lemma copy_loop (newPos target : Float32Array) :
  length target = length newPos ->
  for_loop (length newPos) (fun i t => <[i := rd newPos i]> t) target = newPos.
Proof.
  intros Hlen.
  assert (Hinv : for_loop (length newPos) (fun i t => <[i := rd newPos i]> t) target
                 = take (length newPos) newPos ++ drop (length newPos) target).
  { apply (for_loop_inv (fun n t => t = take n newPos ++ drop n target)).
    - rewrite take_0, drop_0. reflexivity.
    - intros i acc Hi ->.
      rewrite (take_S_r newPos i (rd newPos i)) by (apply lookup_rd; exact Hi).
      rewrite (drop_S target (rd target i) i) by (apply lookup_rd; lia).
      rewrite insert_app_r_alt by (rewrite length_take; lia).
      rewrite length_take, Nat.min_l, Nat.sub_diag by lia.
      rewrite <- app_assoc. reflexivity. }
  rewrite Hinv, firstn_all, drop_ge, app_nil_r by lia. reflexivity.
Qed.

Lemma retarget_eq (shape : ShapeType) (bufs : Buffers) (k : nat) :
  length (targetPositions bufs) = (PARTICLE_COUNT * 3)%nat ->
  retarget Math_random shape bufs k
  = (mkBuffers (currentPositions bufs)
               (fst (generate Math_random shape PARTICLE_COUNT k))
               (colors bufs) (sizes bufs),
     snd (generate Math_random shape PARTICLE_COUNT k)).
Proof.
  intros Hlen. unfold retarget.
  pose proof (generate_length Math_random shape PARTICLE_COUNT k) as Hnew.
  destruct (generate Math_random shape PARTICLE_COUNT k) as [np k'].
  cbn [fst snd] in *. rewrite <- Hnew. rewrite copy_loop by lia. reflexivity.
Qed.

(** C6.  After the retargeting effect for a new shape, the target buffer
    is the output of that shape's generator, entry by entry and particle
    by particle, while the position, colour and size buffers are the
    ones from before. *)
Theorem retarget_frame_effect (shape : ShapeType) (bufs : Buffers) (k : nat) :
  length (targetPositions bufs) = (PARTICLE_COUNT * 3)%nat ->
  let newPos := fst (generate Math_random shape PARTICLE_COUNT k) in
  let bufs' := fst (retarget Math_random shape bufs k) in
  targetPositions bufs' = newPos /\
  (forall j, (j < PARTICLE_COUNT * 3)%nat ->
     targetPositions bufs' !! j = Some (rd newPos j)) /\
  (forall i, (i < PARTICLE_COUNT)%nat ->
     particle (targetPositions bufs') i
     = Some (shapePoint Math_random shape PARTICLE_COUNT i (k + draws shape * i)%nat)) /\
  currentPositions bufs' = currentPositions bufs /\
  colors bufs' = colors bufs /\
  sizes bufs' = sizes bufs.
Proof.
  intros Hlen newPos bufs'. subst newPos bufs'.
  rewrite (retarget_eq shape bufs k Hlen). cbn [fst targetPositions currentPositions colors sizes].
  repeat split.
  - intros j Hj. apply lookup_rd. rewrite generate_length. exact Hj.
  - intros i Hi. apply generate_particle. exact Hi.
Qed.

(** The buffers [useMemo] creates have the sizes the component relies on. *)
Lemma initBuffers_lengths (k : nat) :
  let bufs := fst (initBuffers Math_random c1 c2 c3 k) in
  length (currentPositions bufs) = (PARTICLE_COUNT * 3)%nat /\
  length (targetPositions bufs) = (PARTICLE_COUNT * 3)%nat /\
  length (colors bufs) = (PARTICLE_COUNT * 3)%nat /\
  length (sizes bufs) = PARTICLE_COUNT.
Proof.
  unfold initBuffers.
  destruct (generateTreePoints Math_random PARTICLE_COUNT k) as [initialTree k0].
  match goal with
  | |- context [for_loop PARTICLE_COUNT ?body ?init] =>
      pose proof (for_loop_inv
        (fun _ st =>
           let '(current, target, cols, szs, _) := st in
           length current = (PARTICLE_COUNT * 3)%nat /\
           length target = (PARTICLE_COUNT * 3)%nat /\
           length cols = (PARTICLE_COUNT * 3)%nat /\
           length szs = PARTICLE_COUNT)
        PARTICLE_COUNT body init) as Hinv
  end.
  destruct (for_loop PARTICLE_COUNT _ _) as [[[[current target] cols] szs] k1].
  cbn [fst currentPositions targetPositions colors sizes]. apply Hinv.
  - rewrite !length_Float32Array_new. auto.
  - intros i [[[[cur tgt] cl] sz] k'] _ (H1 & H2 & H3 & H4).
    rewrite !length_write3, length_insert. auto.
Qed.

End ParticleSystemProperties.

(** A frame of 16 ms with the hand at [rotationX = 0.8]. *)
Lemma rotation_sign_witness :
  0 < 0.016 /\
  rotationDelta (mkGesture true 0.9 0.8 0.2 false true) 0.016
  = (0.8 - 0.5) * 2 * 2 * 0.016.
Proof.
  split; [lra|].
  destruct (rotation_sign (fun _ => 0.5) (mkPoints 0) sampleBuffers
              (mkGesture true 0.9 0.8 0.2 false true) 0.016 0 0)
    as (_ & Hhand & _); [lra|].
  apply Hhand. reflexivity.
Defined.

(** A frame with an [openness] just below 0. *)
Lemma useFrame_openness_at_most_one_witness :
  openness (mkGesture false (-0.01) 0.5 0 false true) <= 1 /\
  useFrame (fun _ => 0.5) (Some (mkPoints 0)) sampleBuffers
    (mkGesture false (-0.01) 0.5 0 false true) 0.1 0 0
  = useFrame (fun _ => 0.5) (Some (mkPoints 0)) sampleBuffers
      (withOpenness (mkGesture false (-0.01) 0.5 0 false true)
         (clamp01 (openness (mkGesture false (-0.01) 0.5 0 false true))))
      0.1 0 0.
Proof.
  split; [simpl; lra|].
  apply (useFrame_openness_at_most_one (fun _ => 0.5)). simpl. lra.
Defined.

(** The fresh buffers of the tree, retargeted to the heart. *)
Lemma retarget_frame_effect_witness :
  length (targetPositions (fst sampleInit)) = (PARTICLE_COUNT * 3)%nat /\
  targetPositions (fst (retarget sampleSource HEART (fst sampleInit) (snd sampleInit)))
  = fst (generate sampleSource HEART PARTICLE_COUNT (snd sampleInit)) /\
  currentPositions (fst (retarget sampleSource HEART (fst sampleInit) (snd sampleInit)))
  = currentPositions (fst sampleInit).
Proof.
  unfold sampleInit.
  pose proof (initBuffers_lengths sampleSource (Color.mk 0 0 0) (Color.mk 0 0 0)
                (Color.mk 0 0 0) 0) as Hlen.
  cbv zeta in Hlen. destruct Hlen as (_ & Ht & _). revert Ht.
  generalize (initBuffers sampleSource (Color.mk 0 0 0) (Color.mk 0 0 0)
                (Color.mk 0 0 0) 0).
  intros init Ht.
  split; [exact Ht|].
  destruct (retarget_frame_effect sampleSource HEART (fst init) (snd init) Ht)
    as (Htarget & _ & _ & Hcurrent & _).
  split; [exact Htarget | exact Hcurrent].
Defined.

Lemma rd3_replicate (n i : nat) (v : R) :
  (i * 3 + 2 < n)%nat -> rd3 (replicate n v) i = (v, v, v).
Proof.
  intros Hi. unfold rd3, rd.
  rewrite !lookup_replicate_2 by lia. reflexivity.
Qed.

(** The first coordinate of the first particle after one frame on
    [sampleBuffers], with every draw equal to 0.5, a frame time of 0.1
    and a hand of the given [openness] above the threshold of line 132:
    the target 1 is pushed to [1 + 3 * openness] and the particle covers
    three tenths of the way. *)
Lemma sample_frame_first_coordinate (v : R) :
  0.1 < v * 3.0 ->
  rd (currentPositions
        (snd (fst (useFrame (fun _ => 0.5) (Some (mkPoints 0)) sampleBuffers
                     (mkGesture true v 0.5 0 false true) 0.1 0 0))))
     0
  = (1 + 3 * v) * 0.3.
Proof.
  intros Hv.
  destruct (useFrame_spec (fun _ => 0.5) (mkPoints 0) sampleBuffers
              (mkGesture true v 0.5 0 false true) 0.1 0 0)
    as (current' & Heq & _ & Hpts).
  { apply length_replicate. }
  rewrite Heq. cbn [fst snd currentPositions].
  assert (H0 : (0 < PARTICLE_COUNT)%nat) by (unfold PARTICLE_COUNT; lia).
  specialize (Hpts 0%nat H0).
  unfold sampleBuffers in Hpts. cbn [targetPositions currentPositions] in Hpts.
  rewrite !rd3_replicate in Hpts by (unfold PARTICLE_COUNT; lia).
  unfold adjustedTarget, spreadFactor in Hpts. cbn [openness] in Hpts.
  rewrite (proj2 (Rltb_true 0.1 (v * 3.0)) Hv) in Hpts.
  unfold rd3, smooth3, twinkle, smooth, lerpSpeed in Hpts. cbn [fst] in Hpts.
  injection Hpts as Hx _ _.
  change (0 * 3)%nat with 0%nat in Hx. rewrite Hx. lra.
Qed.

(** C5, counterexample.  An [openness] of 1.1 is used as it is: the
    spread factor is 3.3 where the clamped value gives 3, and the first
    particle of [sampleBuffers] moves to 1.29 instead of 1.2. *)
Lemma useFrame_does_not_clamp_openness :
  clamp01 1.1 = 1 /\
  rd (currentPositions
        (snd (fst (useFrame (fun _ => 0.5) (Some (mkPoints 0)) sampleBuffers
                     (mkGesture true 1.1 0.5 0 false true) 0.1 0 0)))) 0 = 1.29 /\
  rd (currentPositions
        (snd (fst (useFrame (fun _ => 0.5) (Some (mkPoints 0)) sampleBuffers
                     (withOpenness (mkGesture true 1.1 0.5 0 false true)
                                   (clamp01 1.1)) 0.1 0 0)))) 0 = 1.2 /\
  useFrame (fun _ => 0.5) (Some (mkPoints 0)) sampleBuffers
    (mkGesture true 1.1 0.5 0 false true) 0.1 0 0
  <> useFrame (fun _ => 0.5) (Some (mkPoints 0)) sampleBuffers
       (withOpenness (mkGesture true 1.1 0.5 0 false true)
          (clamp01 (openness (mkGesture true 1.1 0.5 0 false true)))) 0.1 0 0.
Proof.
  assert (Hc : clamp01 1.1 = 1) by (apply clamp01_above; lra).
  assert (Ha : rd (currentPositions
        (snd (fst (useFrame (fun _ => 0.5) (Some (mkPoints 0)) sampleBuffers
                     (mkGesture true 1.1 0.5 0 false true) 0.1 0 0)))) 0 = 1.29).
  { rewrite sample_frame_first_coordinate by lra. lra. }
  assert (Hb : rd (currentPositions
        (snd (fst (useFrame (fun _ => 0.5) (Some (mkPoints 0)) sampleBuffers
                     (withOpenness (mkGesture true 1.1 0.5 0 false true)
                                   (clamp01 1.1)) 0.1 0 0)))) 0 = 1.2).
  { rewrite Hc. unfold withOpenness. cbn [isOpen rotationX pinchDistance isPinching handDetected].
    rewrite sample_frame_first_coordinate by lra. lra. }
  split; [exact Hc|]. split; [exact Ha|]. split; [exact Hb|].
  cbn [openness]. intros Heq. rewrite Heq in Ha. rewrite Ha in Hb. lra.
Qed.

(** ** Gesture interpretation *)

Lemma runFrames_nil (gesture : GestureState) :
  runFrames [] gesture = Normal gesture.
Proof. reflexivity. Qed.

Lemma runFrames_snoc (frames : list (option HandLandmarkerResult))
    (results : option HandLandmarkerResult) (gesture : GestureState) :
  runFrames (frames ++ [results]) gesture
  = (g ← runFrames frames gesture; predictWebcam results g).
Proof. unfold runFrames. rewrite fold_left_app. reflexivity. Qed.

Lemma predictWebcam_noHand (results : option HandLandmarkerResult)
    (gesture : GestureState) :
  noHand results = true -> predictWebcam results gesture = Normal (noHandFrame gesture).
Proof.
  destruct results as [[[|hand rest]]|]; simpl; intros H;
    try discriminate; reflexivity.
Qed.

(** A run of frames without a hand applies the decay once per frame. *)
Lemma runFrames_noHand (frames : list (option HandLandmarkerResult))
    (gesture : GestureState) :
  forallb noHand frames = true ->
  runFrames frames gesture = Normal (Nat.iter (length frames) noHandFrame gesture).
Proof.
  induction frames as [|results frames IH] using rev_ind; intros Hall.
  - reflexivity.
  - rewrite forallb_app in Hall. apply andb_prop in Hall as [Hfr Hres].
    simpl in Hres. rewrite andb_true_r in Hres.
    rewrite runFrames_snoc, IH by exact Hfr. simpl.
    rewrite predictWebcam_noHand by exact Hres.
    rewrite length_app, Nat.add_1_r. reflexivity.
Qed.

Lemma decay_step (v d : R) :
  Rmax 0 (Rmax 0 v - d) = Rmax 0 (v - d) \/ d < 0.
Proof.
  solve_min_max.
Qed.

(** The state after [n >= 1] decays. *)
Lemma iter_noHandFrame (n : nat) (gesture : GestureState) :
  Nat.iter (S n) noHandFrame gesture
  = mkGesture (isOpen gesture)
              (Rmax 0 (openness gesture - INR (S n) * 0.05))
              (rotationX gesture) (pinchDistance gesture) (isPinching gesture)
              false.
Proof.
  induction n as [|n IH].
  - simpl. unfold noHandFrame. do 2 f_equal. lra.
  - change (Nat.iter (S (S n)) noHandFrame gesture)
      with (noHandFrame (Nat.iter (S n) noHandFrame gesture)).
    rewrite IH. unfold noHandFrame. cbn [isOpen openness rotationX pinchDistance isPinching].
    f_equal. rewrite (S_INR (S n)).
    destruct (decay_step (openness gesture - INR (S n) * 0.05) 0.05) as [E|E]; [|lra].
    rewrite E. f_equal. lra.
Qed.

Lemma Rmax_decay_le (v a b : R) : a <= b -> Rmax 0 (v - b) <= Rmax 0 (v - a).
Proof.
  intros Hab. unfold Rmax. repeat destruct (Rle_dec _ _); lra.
Qed.

(** C4.  After [N >= 1] consecutive frames without a hand, starting from
    an [openness] of [v]: the interpretation has not failed, [openness]
    is [max(0, v - N * 0.05)], [handDetected] is false, every other field
    has the value it had; one more such frame never raises [openness];
    and the first value is not above [v] when [v] is not negative. *)
Theorem gesture_decay (frames : list (option HandLandmarkerResult))
    (gesture : GestureState) :
  forallb noHand frames = true ->
  (1 <= length frames)%nat ->
  exists g',
    runFrames frames gesture = Normal g' /\
    openness g' = Rmax 0 (openness gesture - INR (length frames) * 0.05) /\
    handDetected g' = false /\
    isOpen g' = isOpen gesture /\
    rotationX g' = rotationX gesture /\
    pinchDistance g' = pinchDistance gesture /\
    isPinching g' = isPinching gesture /\
    (forall results, noHand results = true ->
       exists g'', runFrames (frames ++ [results]) gesture = Normal g'' /\
                   openness g'' <= openness g') /\
    (0 <= openness gesture -> openness g' <= openness gesture).
Proof.
  intros Hall Hn.
  destruct (length frames) as [|n] eqn:En; [lia|].
  exists (Nat.iter (S n) noHandFrame gesture).
  split; [rewrite <- En; apply runFrames_noHand; exact Hall|].
  rewrite iter_noHandFrame. cbn [openness handDetected isOpen rotationX pinchDistance isPinching].
  repeat split.
  - intros results Hres.
    exists (Nat.iter (S (S n)) noHandFrame gesture). split.
    + rewrite runFrames_noHand.
      * rewrite length_app, En, Nat.add_1_r. reflexivity.
      * rewrite forallb_app, Hall. simpl. rewrite Hres. reflexivity.
    + rewrite iter_noHandFrame. cbn [openness].
      apply Rmax_decay_le. rewrite (S_INR (S n)). lra.
  - intros Hv. pose proof (pos_INR n). rewrite S_INR.
    unfold Rmax. destruct (Rle_dec _ _); nra.
Qed.

(** Three frames without a hand, starting from an [openness] of 0.9. *)
Lemma gesture_decay_witness :
  forallb noHand [None; Some (mkResult []); None] = true /\
  (1 <= length [None; Some (mkResult []); None])%nat /\
  exists g',
    runFrames [None; Some (mkResult []); None] (mkGesture true 0.9 0.7 0.2 false true)
    = Normal g' /\
    openness g' = Rmax 0 (0.9 - INR 3 * 0.05) /\
    handDetected g' = false.
Proof.
  split; [reflexivity|]. split; [simpl; lia|].
  destruct (gesture_decay [None; Some (mkResult []); None]
              (mkGesture true 0.9 0.7 0.2 false true))
    as (g' & Hrun & Hopen & Hhand & _); [reflexivity | simpl; lia |].
  exists g'. split; [exact Hrun|]. split; [exact Hopen | exact Hhand].
Defined.

(** A hand with all 21 landmarks is interpreted without error. *)
Lemma handFrame_defined (hand : list NormalizedLandmark.t) :
  (21 <= length hand)%nat ->
  exists (avg : R) (knuckle thumbTip indexTip : NormalizedLandmark.t),
    hand !! 9%nat = Some knuckle /\
    hand !! 4%nat = Some thumbTip /\
    hand !! 8%nat = Some indexTip /\
    averageTipDistance hand = Normal avg /\
    handFrame hand
    = Normal (mkGesture (Rltb 0.6 (clamp01 ((avg - 0.2) / (0.4 - 0.2))))
                        (clamp01 ((avg - 0.2) / (0.4 - 0.2)))
                        (1.0 - NormalizedLandmark.x knuckle)
                        (landmarkDistance thumbTip indexTip)
                        (Rltb (landmarkDistance thumbTip indexTip) 0.05)
                        true).
Proof.
  intros Hlen.
  destruct (lookup_lt_is_Some_2 hand 0) as [l0 H0]; [lia|].
  destruct (lookup_lt_is_Some_2 hand 4) as [l4 H4]; [lia|].
  destruct (lookup_lt_is_Some_2 hand 8) as [l8 H8]; [lia|].
  destruct (lookup_lt_is_Some_2 hand 9) as [l9 H9]; [lia|].
  destruct (lookup_lt_is_Some_2 hand 12) as [l12 H12]; [lia|].
  destruct (lookup_lt_is_Some_2 hand 16) as [l16 H16]; [lia|].
  destruct (lookup_lt_is_Some_2 hand 20) as [l20 H20]; [lia|].
  unfold handFrame, averageTipDistance, pinchDist. cbn [fold_left].
  rewrite H0, H4, H8, H9, H12, H16, H20. cbn.
  eexists _, l9, l4, l8. repeat split.
Qed.

(** A hand with fewer than 21 landmarks makes the interpretation read a
    coordinate of [undefined]. *)
Lemma handFrame_short (hand : list NormalizedLandmark.t) :
  (length hand < 21)%nat -> handFrame hand = TypeError.
Proof.
  intros Hlen.
  assert (H20 : hand !! 20%nat = None) by (apply lookup_ge_None_2; lia).
  unfold handFrame, averageTipDistance. cbn [fold_left]. rewrite H20.
  destruct (hand !! 0%nat); destruct (hand !! 4%nat); destruct (hand !! 8%nat);
    destruct (hand !! 12%nat); destruct (hand !! 16%nat); reflexivity.
Qed.

Lemma handFrame_pinch (hand : list NormalizedLandmark.t) (g' : GestureState)
    (thumbTip indexTip : NormalizedLandmark.t) :
  handFrame hand = Normal g' ->
  hand !! 4%nat = Some thumbTip ->
  hand !! 8%nat = Some indexTip ->
  pinchDistance g' = landmarkDistance thumbTip indexTip /\
  isPinching g' = Rltb (landmarkDistance thumbTip indexTip) 0.05.
Proof.
  unfold handFrame, pinchDist. intros Hrun H4 H8.
  destruct (averageTipDistance hand) as [avg|]; [|discriminate].
  rewrite H4, H8 in Hrun. cbn in Hrun.
  destruct (hand !! 9%nat) as [l9|]; [|discriminate].
  cbn in Hrun. injection Hrun as <-. split; reflexivity.
Qed.

(** The interpretation keeps [openness] inside [0, 1]: the hand branch
    clamps it (line 88) and the other branch stops the decay at 0. *)
Lemma predictWebcam_openness_range (results : option HandLandmarkerResult)
    (gesture g' : GestureState) :
  0 <= openness gesture <= 1 ->
  predictWebcam results gesture = Normal g' ->
  0 <= openness g' <= 1.
Proof.
  intros Hrange Hrun.
  assert (Hno : 0 <= openness (noHandFrame gesture) <= 1).
  { unfold noHandFrame. cbn [openness]. solve_min_max. }
  destruct (noHand results) eqn:Hhand.
  - rewrite predictWebcam_noHand in Hrun by exact Hhand.
    injection Hrun as <-. exact Hno.
  - destruct results as [[[|hand rest]]|]; try discriminate.
    change (handFrame hand = Normal g') in Hrun. unfold handFrame in Hrun.
    destruct (averageTipDistance hand) as [avg|]; cbn in Hrun; [|discriminate].
    destruct (get_x (hand !! 9%nat)) as [k9|]; cbn in Hrun; [|discriminate].
    destruct (pinchDist hand) as [pinch|]; cbn in Hrun; [|discriminate].
    injection Hrun as <-. cbn [openness]. apply clamp01_range.
Qed.

(** C9.  For a frame interpreted with a hand, [pinchDistance] is the
    Euclidean distance of the thumb tip (landmark 4) and the index tip
    (landmark 8), and [isPinching] holds exactly when that distance is
    below 0.05: it holds at the distances 0.03 and 0.049, and fails at
    0.10 and 0.051. *)
Theorem pinch_threshold (hand : list NormalizedLandmark.t)
    (rest : list (list NormalizedLandmark.t)) (gesture g' : GestureState)
    (thumbTip indexTip : NormalizedLandmark.t) :
  predictWebcam (Some (mkResult (hand :: rest))) gesture = Normal g' ->
  hand !! 4%nat = Some thumbTip ->
  hand !! 8%nat = Some indexTip ->
  pinchDistance g' = landmarkDistance thumbTip indexTip /\
  (isPinching g' = true <-> landmarkDistance thumbTip indexTip < 0.05) /\
  (landmarkDistance thumbTip indexTip = 0.03 -> isPinching g' = true) /\
  (landmarkDistance thumbTip indexTip = 0.049 -> isPinching g' = true) /\
  (landmarkDistance thumbTip indexTip = 0.10 -> isPinching g' = false) /\
  (landmarkDistance thumbTip indexTip = 0.051 -> isPinching g' = false).
Proof.
  intros Hrun H4 H8. cbn in Hrun.
  destruct (handFrame_pinch hand g' thumbTip indexTip Hrun H4 H8) as [Hd Hp].
  rewrite Hp. split; [exact Hd|]. split; [apply Rltb_true|].
  repeat split; intros ->; (apply Rltb_true || apply Rltb_false); lra.
Qed.

(** The pinch distance of a sample hand is the offset of its index tip. *)
Lemma sampleHand_pinch (d : R) (gesture : GestureState) :
  0 <= d ->
  exists g',
    predictWebcam (Some (mkResult [sampleHand 21 d])) gesture = Normal g' /\
    pinchDistance g' = d /\
    isPinching g' = Rltb d 0.05.
Proof.
  intros Hd.
  destruct (handFrame_defined (sampleHand 21 d)) as (avg & l9 & l4 & l8 & _ & H4 & H8 & _ & Hrun).
  { unfold sampleHand. rewrite length_insert, length_replicate. lia. }
  eexists. split; [exact Hrun|].
  injection H4 as <-. injection H8 as <-.
  assert (E : landmarkDistance (NormalizedLandmark.mk 0.5 0.5 0)
                (NormalizedLandmark.mk (0.5 + d) 0.5 0) = d).
  { unfold landmarkDistance. cbn [NormalizedLandmark.x NormalizedLandmark.y].
    replace ((0.5 - (0.5 + d)) ^ 2 + (0.5 - 0.5) ^ 2) with (d * d) by ring.
    apply sqrt_square. exact Hd. }
  cbn [pinchDistance isPinching]. rewrite E. split; reflexivity.
Qed.

(** A full hand whose index tip is 0.03 away from the thumb tip. *)
Lemma pinch_threshold_witness :
  exists g',
    predictWebcam (Some (mkResult [sampleHand 21 0.03])) initialGesture = Normal g' /\
    sampleHand 21 0.03 !! 4%nat = Some (NormalizedLandmark.mk 0.5 0.5 0) /\
    sampleHand 21 0.03 !! 8%nat = Some (NormalizedLandmark.mk (0.5 + 0.03) 0.5 0) /\
    (isPinching g' = true <->
     landmarkDistance (NormalizedLandmark.mk 0.5 0.5 0)
                      (NormalizedLandmark.mk (0.5 + 0.03) 0.5 0) < 0.05).
Proof.
  destruct (sampleHand_pinch 0.03 initialGesture) as (g' & Hrun & _); [lra|].
  exists g'. split; [exact Hrun|].
  split; [reflexivity|]. split; [reflexivity|].
  apply (pinch_threshold (sampleHand 21 0.03) [] initialGesture g'
           (NormalizedLandmark.mk 0.5 0.5 0)
           (NormalizedLandmark.mk (0.5 + 0.03) 0.5 0) Hrun);
    reflexivity.
Defined.

(** The four distances of the specification, on sample hands. *)
Lemma pinch_samples (d : R) (gesture : GestureState) :
  d = 0.03 \/ d = 0.049 \/ d = 0.10 \/ d = 0.051 ->
  exists g',
    predictWebcam (Some (mkResult [sampleHand 21 d])) gesture = Normal g' /\
    pinchDistance g' = d /\
    isPinching g' = (if Rlt_dec d 0.05 then true else false) /\
    (d = 0.03 \/ d = 0.049 -> isPinching g' = true) /\
    (d = 0.10 \/ d = 0.051 -> isPinching g' = false).
Proof.
  intros Hd.
  destruct (sampleHand_pinch d gesture) as (g' & Hrun & Hdist & Hp); [lra|].
  exists g'. split; [exact Hrun|]. split; [exact Hdist|]. split; [exact Hp|].
  rewrite Hp. split; intros Hc; (apply Rltb_true || apply Rltb_false); lra.
Qed.

(** C10 (amended).  A detector result that is [null] or holds no hand
    takes the branch of the missing hand; a first hand of at least 21
    landmarks is interpreted without error and sets [handDetected]; a
    first hand of fewer than 21 landmarks is not caught: the
    interpretation ends in a [TypeError]. *)
Theorem malformed_hand_is_not_guarded (hand : list NormalizedLandmark.t)
    (rest : list (list NormalizedLandmark.t)) (gesture : GestureState) :
  predictWebcam None gesture = Normal (noHandFrame gesture) /\
  predictWebcam (Some (mkResult [])) gesture = Normal (noHandFrame gesture) /\
  ((21 <= length hand)%nat ->
     exists g', predictWebcam (Some (mkResult (hand :: rest))) gesture = Normal g' /\
                handDetected g' = true) /\
  ((length hand < 21)%nat ->
     predictWebcam (Some (mkResult (hand :: rest))) gesture = TypeError /\
     runFrames [Some (mkResult (hand :: rest))] gesture = TypeError).
Proof.
  split; [reflexivity|]. split; [reflexivity|]. split.
  - intros Hlen.
    destruct (handFrame_defined hand Hlen) as (avg & l9 & l4 & l8 & _ & _ & _ & _ & Hrun).
    eexists. split; [exact Hrun | reflexivity].
  - intros Hlen. pose proof (handFrame_short hand Hlen) as Hrun.
    split; [exact Hrun|].
    unfold runFrames. cbn. exact Hrun.
Qed.

(** A hand of 20 landmarks. *)
Lemma malformed_hand_is_not_guarded_witness :
  (length (sampleHand 20 0.03) < 21)%nat /\
  predictWebcam (Some (mkResult [sampleHand 20 0.03])) initialGesture = TypeError.
Proof.
  split; [vm_compute; lia|].
  apply (malformed_hand_is_not_guarded (sampleHand 20 0.03) [] initialGesture).
  vm_compute. lia.
Defined.

(** C10, counterexample.  A first hand of 20 landmarks is not treated as
    a missing hand: the interpretation ends in a [TypeError], where the
    branch of the missing hand ends normally with the decayed state. *)
Lemma short_hand_raises :
  length (sampleHand 20 0.03) = 20%nat /\
  predictWebcam (Some (mkResult [sampleHand 20 0.03])) initialGesture = TypeError /\
  predictWebcam None initialGesture = Normal (noHandFrame initialGesture) /\
  predictWebcam (Some (mkResult [sampleHand 20 0.03])) initialGesture
  <> predictWebcam None initialGesture.
Proof.
  assert (Hshort : predictWebcam (Some (mkResult [sampleHand 20 0.03])) initialGesture
                   = TypeError).
  { apply handFrame_short. unfold sampleHand.
    rewrite length_insert, length_replicate. lia. }
  split; [unfold sampleHand; rewrite length_insert, length_replicate; reflexivity|].
  split; [exact Hshort|]. split; [reflexivity|].
  rewrite Hshort. discriminate.
Qed.

(** * Further properties of the code *)

(** ** Extent of the shapes *)

Lemma Rabs_cos_scaled (a radius : R) : 0 <= radius -> Rabs (cos a * radius) <= radius.
Proof.
  intros Hr. pose proof (COS_bound a). apply Rabs_le. nra.
Qed.

Lemma Rabs_sin_scaled (a radius : R) : 0 <= radius -> Rabs (sin a * radius) <= radius.
Proof.
  intros Hr. pose proof (SIN_bound a). apply Rabs_le. nra.
Qed.

(** Two buffers of the same size with the same particles are equal. *)
Lemma buffers_eq (N : nat) (a b : Float32Array) :
  length a = (N * 3)%nat -> length b = (N * 3)%nat ->
  (forall i, (i < N)%nat -> rd3 a i = rd3 b i) ->
  a = b.
Proof.
  intros Ha Hb Hpts. apply list_eq. intros j.
  destruct (decide (j < N * 3)%nat) as [Hj|Hj].
  - rewrite (lookup_rd a j), (lookup_rd b j) by lia. f_equal.
    assert (Hi : (j / 3 < N)%nat) by (apply Nat.Div0.div_lt_upper_bound; lia).
    specialize (Hpts (j / 3)%nat Hi). unfold rd3 in Hpts.
    injection Hpts as H0 H1 H2.
    pose proof (Nat.div_mod_eq j 3) as Hdiv.
    pose proof (Nat.mod_upper_bound j 3 ltac:(lia)) as Hmod.
    destruct (j mod 3)%nat as [|[|[|m]]] eqn:Em; try lia.
    + replace j with (j / 3 * 3)%nat by lia. exact H0.
    + replace j with (j / 3 * 3 + 1)%nat by lia. exact H1.
    + replace j with (j / 3 * 3 + 2)%nat by lia. exact H2.
  - rewrite !lookup_ge_None_2 by lia. reflexivity.
Qed.

Section GeometryBounds.

Variable Math_random : nat -> R.
Hypothesis Math_random_range : forall k, 0 <= Math_random k < 1.

(** X1.  The tree stands between the heights -3 and 4 and inside the
    cone of radius [3.5 * t], up to the jitter of a quarter: the
    horizontal coordinates stay below 3.75 in absolute value. *)
Theorem tree_bounding_box (count k i : nat) :
  (i < count)%nat ->
  exists x y z,
    particle (fst (generateTreePoints Math_random count k)) i = Some (x, y, z) /\
    -3 < y <= 4 /\
    Rabs x <= 3.5 * (INR i / INR count) + 0.25 /\
    Rabs z <= 3.5 * (INR i / INR count) + 0.25 /\
    Rabs x < 3.75 /\ Rabs z < 3.75.
Proof.
  intros Hi.
  pose proof (generate_particle Math_random TREE count k i Hi) as Hp.
  change (particle (fst (generateTreePoints Math_random count k)) i
          = Some (treePoint Math_random count i (k + 2 * i))) in Hp.
  rewrite treePoint_formula in Hp. cbv zeta in Hp.
  pose proof (index_fraction count i Hi) as Ht.
  set (t := INR i / INR count) in *.
  pose proof (Math_random_range (k + 2 * i)) as Hu.
  pose proof (Math_random_range (k + 2 * i + 1)) as Hv.
  pose proof (Rabs_cos_scaled (t * (2 * PI) * 10) (3.5 * t) ltac:(lra)) as Hc.
  pose proof (Rabs_sin_scaled (t * (2 * PI) * 10) (3.5 * t) ltac:(lra)) as Hs.
  assert (Hx : Rabs (cos (t * (2 * PI) * 10) * (3.5 * t)
                     + (Math_random (k + 2 * i) - 0.5) * 0.5) <= 3.5 * t + 0.25).
  { eapply Rle_trans; [apply Rabs_triang|].
    assert (Rabs ((Math_random (k + 2 * i) - 0.5) * 0.5) <= 0.25)
      by (apply Rabs_le; lra).
    lra. }
  assert (Hz : Rabs (sin (t * (2 * PI) * 10) * (3.5 * t)
                     + (Math_random (k + 2 * i + 1) - 0.5) * 0.5) <= 3.5 * t + 0.25).
  { eapply Rle_trans; [apply Rabs_triang|].
    assert (Rabs ((Math_random (k + 2 * i + 1) - 0.5) * 0.5) <= 0.25)
      by (apply Rabs_le; lra).
    lra. }
  eexists _, _, _. split; [exact Hp|].
  repeat split; try lra; assumption.
Qed.

(** X2.  Along the tree the height falls strictly with the index: the
    points [i < j] differ in height by [7 * (j - i) / count]. *)
Theorem tree_heights_descend (count k i j : nat) :
  (i < j)%nat -> (j < count)%nat ->
  exists yi yj,
    fst (generateTreePoints Math_random count k) !! (i * 3 + 1)%nat = Some yi /\
    fst (generateTreePoints Math_random count k) !! (j * 3 + 1)%nat = Some yj /\
    yi - yj = 7 * (INR j - INR i) / INR count /\
    yj < yi.
Proof.
  intros Hij Hj.
  pose proof (generate_particle Math_random TREE count k i ltac:(lia)) as Hpi.
  pose proof (generate_particle Math_random TREE count k j Hj) as Hpj.
  change (particle (fst (generateTreePoints Math_random count k)) i
          = Some (treePoint Math_random count i (k + 2 * i))) in Hpi.
  change (particle (fst (generateTreePoints Math_random count k)) j
          = Some (treePoint Math_random count j (k + 2 * j))) in Hpj.
  apply (particle_entry _ _ 1) in Hpi; [|lia].
  apply (particle_entry _ _ 1) in Hpj; [|lia].
  rewrite treePoint_formula in Hpi, Hpj. cbn [coord fst snd] in Hpi, Hpj.
  eexists _, _. split; [exact Hpi|]. split; [exact Hpj|].
  assert (Hc : 0 < INR count) by (apply lt_0_INR; lia).
  assert (Hlt : INR i < INR j) by (apply lt_INR; exact Hij).
  assert (E : 4 - 7 * (INR i / INR count) - (4 - 7 * (INR j / INR count))
              = 7 * (INR j - INR i) / INR count) by (field; lra).
  split; [exact E|].
  assert (0 < 7 * (INR j - INR i) / INR count).
  { apply Rdiv_lt_0_compat; lra. }
  lra.
Qed.

(** X3.  The heart fits the box [|x| < 4], [|y| < 5.25], [-1 <= z < 1]. *)
Theorem heart_bounding_box (count k i : nat) :
  (i < count)%nat ->
  exists x y z,
    particle (fst (generateHeartPoints Math_random count k)) i = Some (x, y, z) /\
    Rabs x < 4 /\ Rabs y < 5.25 /\ -1 <= z < 1.
Proof.
  intros Hi.
  pose proof (generate_particle Math_random HEART count k i Hi) as Hp.
  change (particle (fst (generateHeartPoints Math_random count k)) i
          = Some (heartPoint Math_random (k + 3 * i))) in Hp.
  unfold heartPoint in Hp.
  pose proof (Math_random_range (k + 3 * i + 1)) as Hr.
  pose proof (Math_random_range (k + 3 * i + 2)) as Hz.
  set (t := Math_random (k + 3 * i) * PI * 2) in *.
  pose proof (SIN_bound t) as Hs.
  pose proof (COS_bound t) as Hc1.
  pose proof (COS_bound (2 * t)) as Hc2.
  pose proof (COS_bound (3 * t)) as Hc3.
  pose proof (COS_bound (4 * t)) as Hc4.
  eexists _, _, _. split; [exact Hp|].
  split; [|split].
  - assert (Hcube : -1 <= sin t ^ 3 <= 1).
    { assert (0 <= sin t * sin t <= 1) by nra.
      replace (sin t ^ 3) with (sin t * (sin t * sin t)) by ring. nra. }
    apply Rabs_def1; nra.
  - apply Rabs_def1; nra.
  - lra.
Qed.

(** X4.  The star lies strictly inside the cylinder of radius 5.5 about
    the depth axis, between the depths -0.75 and 0.75. *)
Theorem star_bounding_cylinder (count k i : nat) :
  (i < count)%nat ->
  exists x y z,
    particle (fst (generateStarPoints Math_random count k)) i = Some (x, y, z) /\
    x * x + y * y < 5.5 * 5.5 /\ -0.75 <= z < 0.75.
Proof.
  intros Hi.
  pose proof (generate_particle Math_random STAR count k i Hi) as Hp.
  change (particle (fst (generateStarPoints Math_random count k)) i
          = Some (starPoint Math_random (k + 4 * i))) in Hp.
  unfold starPoint in Hp.
  pose proof (Math_random_range (k + 4 * i + 1)) as Hu.
  pose proof (Math_random_range (k + 4 * i + 2)) as Hv.
  pose proof (Math_random_range (k + 4 * i + 3)) as Hw.
  set (theta := Math_random (k + 4 * i) * PI * 2) in *.
  set (spike := Rabs (sin (theta * 2.5))) in *.
  assert (Hspike : 0 <= spike <= 1).
  { subst spike. split; [apply Rabs_pos|].
    apply Rabs_le. apply SIN_bound. }
  set (r := 3 + spike * 2.5) in *.
  assert (Hr : 3 <= r <= 5.5) by (subst r; lra).
  set (u := Math_random (k + 4 * i + 1)) in *.
  set (v := Math_random (k + 4 * i + 2)) in *.
  eexists _, _, _. split; [exact Hp|]. split; [|lra].
  pose proof (sin2_cos2 theta) as Hsc. unfold Rsqr in Hsc.
  assert (Huv : cos theta * cos theta * (u * u) + sin theta * sin theta * (v * v) < 1).
  { destruct (Req_dec (cos theta) 0) as [Hc0|Hc0].
    - rewrite Hc0 in *. nra.
    - assert (0 < cos theta * cos theta) by (apply (Rsqr_pos_lt _ Hc0)).
      assert (u * u < 1) by nra. assert (v * v <= 1) by nra.
      assert (0 <= sin theta * sin theta) by nra. nra. }
  replace (r * cos theta * u * (r * cos theta * u) + r * sin theta * v * (r * sin theta * v))
    with (r * r * (cos theta * cos theta * (u * u) + sin theta * sin theta * (v * v)))
    by ring.
  assert (Hrr : 0 < r * r <= 5.5 * 5.5) by nra.
  apply Rlt_le_trans with (r * r * 1); [|lra].
  apply Rmult_lt_compat_l; [lra | exact Huv].
Qed.

(** X5.  A flower point lies on the line through the origin at its
    angle, at the signed radius [r = 4 * cos(4 * theta) * u]: its
    distance from the depth axis is [|r| < 4], and its depth stays
    between -2 and 2. *)
Theorem flower_extent (count k i : nat) :
  (i < count)%nat ->
  exists x y z,
    particle (fst (generateFlowerPoints Math_random count k)) i = Some (x, y, z) /\
    sqrt (x * x + y * y)
    = Rabs (4 * cos (4 * (Math_random (k + 3 * i) * PI * 2))
              * Math_random (k + 3 * i + 1)) /\
    sqrt (x * x + y * y) < 4 /\
    -2 <= z < 2.
Proof.
  intros Hi.
  pose proof (generate_particle Math_random FLOWER count k i Hi) as Hp.
  change (particle (fst (generateFlowerPoints Math_random count k)) i
          = Some (flowerPoint Math_random (k + 3 * i))) in Hp.
  unfold flowerPoint in Hp.
  pose proof (Math_random_range (k + 3 * i + 1)) as Hu.
  pose proof (Math_random_range (k + 3 * i + 2)) as Hw.
  set (theta := Math_random (k + 3 * i) * PI * 2) in *.
  set (r := 4 * cos (4 * theta) * Math_random (k + 3 * i + 1)) in *.
  pose proof (COS_bound (4 * theta)) as Hc.
  pose proof (SIN_bound r) as Hs.
  assert (Hnorm : sqrt (r * cos theta * (r * cos theta) + r * sin theta * (r * sin theta))
                  = Rabs r).
  { pose proof (sin2_cos2 theta) as Hsc. unfold Rsqr in Hsc.
    replace (r * cos theta * (r * cos theta) + r * sin theta * (r * sin theta))
      with (r * r * (sin theta * sin theta + cos theta * cos theta)) by ring.
    rewrite Hsc, Rmult_1_r. apply (sqrt_Rsqr_abs r). }
  eexists _, _, _. split; [exact Hp|].
  split; [exact Hnorm|]. split.
  - rewrite Hnorm. subst r. apply Rabs_def1; nra.
  - lra.
Qed.

(** X6.  The height of a sphere point over the equator is the radius
    times [2 * u - 1] for the second draw [u]: the inverse cosine makes
    the relative height uniform.  The point is never above or below its
    radius. *)
Theorem sphere_latitude (count k i : nat) :
  (i < count)%nat ->
  exists x y z,
    particle (fst (generateSpherePoints Math_random count k)) i = Some (x, y, z) /\
    z = (4 + Math_random (k + 3 * i + 2)) * (2 * Math_random (k + 3 * i + 1) - 1) /\
    x * x + y * y
    = (4 + Math_random (k + 3 * i + 2)) * (4 + Math_random (k + 3 * i + 2))
      * (1 - (2 * Math_random (k + 3 * i + 1) - 1) * (2 * Math_random (k + 3 * i + 1) - 1)).
Proof.
  intros Hi.
  pose proof (generate_particle Math_random SPHERE count k i Hi) as Hp.
  change (particle (fst (generateSpherePoints Math_random count k)) i
          = Some (spherePoint Math_random (k + 3 * i))) in Hp.
  unfold spherePoint, randomOnSphere in Hp.
  cbn [fst Vector3.x Vector3.y Vector3.z] in Hp.
  pose proof (Math_random_range (k + 3 * i + 1)) as Hu.
  set (theta := Math_random (k + 3 * i) * PI * 2) in *.
  set (c := 2 * Math_random (k + 3 * i + 1) - 1) in *.
  set (r := 4 + Math_random (k + 3 * i + 2)) in *.
  assert (Hcos : cos (acos c) = c) by (apply cos_acos; subst c; lra).
  eexists _, _, _. split; [exact Hp|]. split.
  - rewrite Hcos. reflexivity.
  - pose proof (sin2_cos2 theta) as Ht. pose proof (sin2_cos2 (acos c)) as Hphi.
    unfold Rsqr in Ht, Hphi. rewrite Hcos in Hphi.
    replace (r * sin (acos c) * cos theta * (r * sin (acos c) * cos theta)
             + r * sin (acos c) * sin theta * (r * sin (acos c) * sin theta))
      with (r * r * (sin (acos c) * sin (acos c))
            * (sin theta * sin theta + cos theta * cos theta)) by ring.
    rewrite Ht, Rmult_1_r.
    replace (sin (acos c) * sin (acos c)) with (1 - c * c) by lra.
    reflexivity.
Qed.

End GeometryBounds.

(** X7.  A generator reads the random source only in the window of its
    own draws, [draws shape] per point from the [k]-th draw on: two
    sources that agree there give the same point cloud, and the
    generator leaves the draw counter at the end of the window. *)
Theorem generate_reads_its_window (random1 random2 : nat -> R)
    (shape : ShapeType) (count k : nat) :
  (forall j, (k <= j < k + draws shape * count)%nat -> random1 j = random2 j) ->
  generate random1 shape count k = generate random2 shape count k /\
  snd (generate random1 shape count k) = (k + draws shape * count)%nat.
Proof.
  intros Hw.
  destruct (generate_spec random1 shape count k) as (Hl1 & Hk1 & Hp1).
  destruct (generate_spec random2 shape count k) as (Hl2 & Hk2 & Hp2).
  split; [|exact Hk1].
  rewrite (surjective_pairing (generate random1 shape count k)).
  rewrite (surjective_pairing (generate random2 shape count k)).
  rewrite Hk1, Hk2. f_equal.
  apply (buffers_eq count); [exact Hl1 | exact Hl2 |].
  intros i Hi. rewrite Hp1, Hp2 by exact Hi.
  destruct shape; cbn [draws shapePoint] in *.
  - unfold treePoint. rewrite !Hw by lia. reflexivity.
  - unfold heartPoint. rewrite !Hw by lia. reflexivity.
  - unfold starPoint. rewrite !Hw by lia. reflexivity.
  - unfold spherePoint, randomOnSphere. cbn [fst]. rewrite !Hw by lia. reflexivity.
  - unfold flowerPoint. rewrite !Hw by lia. reflexivity.
Qed.

(** The tree generator by itself. *)
Lemma generateTreePoints_spec (random : nat -> R) (count k : nat) :
  length (fst (generateTreePoints random count k)) = (count * 3)%nat /\
  snd (generateTreePoints random count k) = (k + 2 * count)%nat.
Proof.
  destruct (generate_spec random TREE count k) as (Hl & Hk & _).
  split; [exact Hl | exact Hk].
Qed.

(** ** The buffers over a session *)

Section BufferProperties.

Variable Math_random : nat -> R.
Variables c1 c2 c3 : Color.t.

(** Everything the loop of [useMemo] establishes. *)
Lemma initBuffers_inv (k : nat) :
  let tree := fst (generateTreePoints Math_random PARTICLE_COUNT k) in
  let k0 := (k + 2 * PARTICLE_COUNT)%nat in
  let bufs := fst (initBuffers Math_random c1 c2 c3 k) in
  currentPositions bufs = targetPositions bufs /\
  length (currentPositions bufs) = (PARTICLE_COUNT * 3)%nat /\
  length (colors bufs) = (PARTICLE_COUNT * 3)%nat /\
  length (sizes bufs) = PARTICLE_COUNT /\
  snd (initBuffers Math_random c1 c2 c3 k) = (k0 + 2 * PARTICLE_COUNT)%nat /\
  (forall i, (i < PARTICLE_COUNT)%nat ->
     rd3 (currentPositions bufs) i = rd3 tree i) /\
  (forall i, (i < PARTICLE_COUNT)%nat ->
     rd3 (colors bufs) i
     = channels (if Rltb (Math_random (k0 + 2 * i)) 0.6 then c1
                 else if Rltb (Math_random (k0 + 2 * i)) 0.8 then c2 else c3)) /\
  (forall i, (i < PARTICLE_COUNT)%nat ->
     sizes bufs !! i
     = Some (if Rltb (Math_random (k0 + 2 * i + 1)) 0.1 then 0.4 else 0.15)).
Proof.
  intros tree k0 bufs. subst tree k0 bufs. unfold initBuffers.
  destruct (generateTreePoints_spec Math_random PARTICLE_COUNT k) as (_ & Hk0).
  destruct (generateTreePoints Math_random PARTICLE_COUNT k) as [tree k0].
  cbn [fst snd] in *. subst k0.
  set (k0 := (k + 2 * PARTICLE_COUNT)%nat).
  match goal with
  | |- context [for_loop PARTICLE_COUNT ?body ?init] =>
      pose proof (for_loop_inv
        (fun n st =>
           let '(current, target, cols, szs, kk) := st in
           current = target /\
           length current = (PARTICLE_COUNT * 3)%nat /\
           length cols = (PARTICLE_COUNT * 3)%nat /\
           length szs = PARTICLE_COUNT /\
           kk = (k0 + 2 * n)%nat /\
           (forall i, (i < n)%nat -> rd3 current i = rd3 tree i) /\
           (forall i, (i < n)%nat ->
              rd3 cols i
              = channels (if Rltb (Math_random (k0 + 2 * i)) 0.6 then c1
                          else if Rltb (Math_random (k0 + 2 * i)) 0.8 then c2 else c3)) /\
           (forall i, (i < n)%nat ->
              szs !! i
              = Some (if Rltb (Math_random (k0 + 2 * i + 1)) 0.1 then 0.4 else 0.15)))
        PARTICLE_COUNT body init) as Hinv
  end.
  destruct (for_loop PARTICLE_COUNT _ _) as [[[[current target] cols] szs] k1].
  cbn [fst snd currentPositions targetPositions colors sizes]. apply Hinv.
  - rewrite !length_Float32Array_new.
    repeat split; try reflexivity; try lia; intros i Hi; lia.
  - intros n [[[[cur tgt] cl] sz] kk] Hn (Heq & Hlc & Hlcl & Hlsz & Hkk & Hcur & Hcol & Hsz).
    subst tgt kk.
    repeat split.
    + rewrite length_write3. exact Hlc.
    + rewrite length_write3. exact Hlcl.
    + rewrite length_insert. exact Hlsz.
    + lia.
    + intros i Hi. destruct (decide (i = n)) as [->|Hne].
      * apply rd3_write3_eq. lia.
      * rewrite rd3_write3_ne by lia. apply Hcur. lia.
    + intros i Hi. destruct (decide (i = n)) as [->|Hne].
      * rewrite rd3_write3_eq by lia. reflexivity.
      * rewrite rd3_write3_ne by lia. apply Hcol. lia.
    + intros i Hi. destruct (decide (i = n)) as [->|Hne].
      * rewrite list_lookup_insert_eq by lia. reflexivity.
      * rewrite list_lookup_insert_ne by lia. apply Hsz. lia.
Qed.

(** X8.  A fresh component starts at rest on the tree: the position
    buffer and the target buffer both hold the tree that [useMemo]
    generated, and the whole initialisation makes four draws per
    particle. *)
Theorem init_positions_on_targets (k : nat) :
  currentPositions (fst (initBuffers Math_random c1 c2 c3 k))
  = targetPositions (fst (initBuffers Math_random c1 c2 c3 k)) /\
  currentPositions (fst (initBuffers Math_random c1 c2 c3 k))
  = fst (generateTreePoints Math_random PARTICLE_COUNT k) /\
  snd (initBuffers Math_random c1 c2 c3 k) = (k + 4 * PARTICLE_COUNT)%nat.
Proof.
  pose proof (initBuffers_inv k) as Hinv. cbv zeta in Hinv.
  destruct Hinv as (Heq & Hlen & _ & _ & Hk & Hpts & _).
  split; [exact Heq|]. split; [|lia].
  apply (buffers_eq PARTICLE_COUNT); [exact Hlen | | exact Hpts].
  exact (proj1 (generateTreePoints_spec Math_random PARTICLE_COUNT k)).
Qed.

(** X9.  A fresh component gives every particle one of the three palette
    colours, chosen by a draw [r]: the first below 0.6, the second below
    0.8, the third otherwise; and one of the two sizes: 0.4 when the
    next draw is below 0.1, 0.15 otherwise. *)
Theorem init_colors_and_sizes (k i : nat) :
  (i < PARTICLE_COUNT)%nat ->
  let bufs := fst (initBuffers Math_random c1 c2 c3 k) in
  let r := Math_random (k + 2 * PARTICLE_COUNT + 2 * i) in
  let s := Math_random (k + 2 * PARTICLE_COUNT + 2 * i + 1) in
  particle (colors bufs) i
  = Some (channels (if Rltb r 0.6 then c1 else if Rltb r 0.8 then c2 else c3)) /\
  sizes bufs !! i = Some (if Rltb s 0.1 then 0.4 else 0.15) /\
  (particle (colors bufs) i = Some (channels c1) \/
   particle (colors bufs) i = Some (channels c2) \/
   particle (colors bufs) i = Some (channels c3)) /\
  (sizes bufs !! i = Some 0.4 \/ sizes bufs !! i = Some 0.15).
Proof.
  intros Hi bufs r s. subst bufs r s.
  pose proof (initBuffers_inv k) as Hinv. cbv zeta in Hinv.
  destruct Hinv as (_ & _ & Hlen & _ & _ & _ & Hcol & Hsz).
  assert (Hp : particle (colors (fst (initBuffers Math_random c1 c2 c3 k))) i
               = Some (channels
                   (if Rltb (Math_random (k + 2 * PARTICLE_COUNT + 2 * i)) 0.6 then c1
                    else if Rltb (Math_random (k + 2 * PARTICLE_COUNT + 2 * i)) 0.8
                         then c2 else c3))).
  { rewrite particle_rd3 by lia. rewrite Hcol by exact Hi. reflexivity. }
  split; [exact Hp|]. split; [apply Hsz; exact Hi|]. split.
  - rewrite Hp.
    destruct (Rltb _ 0.6); [auto|]. destruct (Rltb _ 0.8); auto.
  - rewrite Hsz by exact Hi. destruct (Rltb _ 0.1); auto.
Qed.

End BufferProperties.

Section SessionProperties.

Variable Math_random : nat -> R.
Variable gold : Color.t.

(** X10.  On a mounted component the colour effect gives every particle
    the new base colour when its draw is above 0.3 and gold otherwise,
    one draw per particle, and leaves positions, targets and sizes as
    they were; on a component that is not mounted it does nothing. *)
Theorem retint_effect (points : Points) (baseColor : Color.t) (bufs : Buffers)
    (k : nat) :
  length (colors bufs) = (PARTICLE_COUNT * 3)%nat ->
  let bufs' := fst (retint Math_random gold (Some points) baseColor bufs k) in
  (forall i, (i < PARTICLE_COUNT)%nat ->
     particle (colors bufs') i
     = Some (channels (if Rltb 0.3 (Math_random (k + i)) then baseColor else gold))) /\
  length (colors bufs') = (PARTICLE_COUNT * 3)%nat /\
  currentPositions bufs' = currentPositions bufs /\
  targetPositions bufs' = targetPositions bufs /\
  sizes bufs' = sizes bufs /\
  snd (retint Math_random gold (Some points) baseColor bufs k)
  = (k + PARTICLE_COUNT)%nat /\
  retint Math_random gold None baseColor bufs k = (bufs, k).
Proof.
  intros Hlen bufs'. subst bufs'. unfold retint.
  match goal with
  | |- context [for_loop PARTICLE_COUNT ?body ?init] =>
      destruct (for_loop_particles PARTICLE_COUNT 1
                  (fun _ _ k' =>
                     channels (if Rltb 0.3 (Math_random k') then baseColor else gold))
                  body (colors bufs) k Hlen) with (n := PARTICLE_COUNT)
        as (Hl & Hk & Hpts & _)
  end.
  - intros i buf k' _ _. cbv beta iota. destruct (Rltb 0.3 (Math_random k')); reflexivity.
  - lia.
  - destruct (for_loop PARTICLE_COUNT _ _) as [cols k'].
    cbn [fst snd currentPositions targetPositions colors sizes] in *.
    repeat split; try reflexivity.
    + intros i Hi. rewrite particle_rd3 by lia. rewrite Hpts by exact Hi.
      replace (k + 1 * i)%nat with (k + i)%nat by lia. reflexivity.
    + exact Hl.
    + lia.
Qed.

Lemma frameParticle_length (spread speed time : R) (target : Float32Array)
    (i : nat) (st : Float32Array * nat) :
  length (fst (frameParticle Math_random spread speed time target i st))
  = length (fst st).
Proof.
  destruct st as [current k]. unfold frameParticle.
  destruct (adjustedTarget _ _ _ _) as [[[tx ty] tz] k'].
  cbn [fst]. rewrite !length_insert. reflexivity.
Qed.

(** What each of the three operations leaves alone. *)
Lemma useFrame_frame (pointsRef : option Points) (bufs : Buffers)
    (gesture : GestureState) (delta time : R) (k : nat) :
  let bufs' := snd (fst (useFrame Math_random pointsRef bufs gesture delta time k)) in
  length (currentPositions bufs') = length (currentPositions bufs) /\
  targetPositions bufs' = targetPositions bufs /\
  colors bufs' = colors bufs /\
  sizes bufs' = sizes bufs.
Proof.
  intros bufs'. subst bufs'. unfold useFrame.
  destruct pointsRef as [points|]; [|cbn; auto].
  match goal with
  | |- context [for_loop PARTICLE_COUNT ?body ?init] =>
      pose proof (for_loop_inv
        (fun _ st => length (fst st) = length (currentPositions bufs))
        PARTICLE_COUNT body init) as Hinv
  end.
  destruct (for_loop PARTICLE_COUNT _ _) as [current k'].
  cbn [fst snd currentPositions targetPositions colors sizes] in *.
  split; [|repeat split; reflexivity]. apply Hinv; [reflexivity|].
  intros i acc _ Hacc. rewrite frameParticle_length. exact Hacc.
Qed.

Lemma retarget_frame (shape : ShapeType) (bufs : Buffers) (k : nat) :
  let bufs' := fst (retarget Math_random shape bufs k) in
  currentPositions bufs' = currentPositions bufs /\
  length (targetPositions bufs') = length (targetPositions bufs) /\
  colors bufs' = colors bufs /\
  sizes bufs' = sizes bufs.
Proof.
  intros bufs'. subst bufs'. unfold retarget.
  destruct (generate Math_random shape PARTICLE_COUNT k) as [newPos k'].
  cbn [fst currentPositions targetPositions colors sizes].
  split; [reflexivity|]. split; [|split; reflexivity].
  apply (for_loop_inv (fun _ t => length t = length (targetPositions bufs)));
    [reflexivity|].
  intros i acc _ Hacc. rewrite length_insert. exact Hacc.
Qed.

Lemma retint_frame (pointsRef : option Points) (baseColor : Color.t)
    (bufs : Buffers) (k : nat) :
  let bufs' := fst (retint Math_random gold pointsRef baseColor bufs k) in
  currentPositions bufs' = currentPositions bufs /\
  targetPositions bufs' = targetPositions bufs /\
  length (colors bufs') = length (colors bufs) /\
  sizes bufs' = sizes bufs.
Proof.
  intros bufs'. subst bufs'. unfold retint.
  destruct pointsRef as [points|]; [|cbn; auto].
  match goal with
  | |- context [for_loop PARTICLE_COUNT ?body ?init] =>
      pose proof (for_loop_inv
        (fun _ st => length (fst st) = length (colors bufs))
        PARTICLE_COUNT body init) as Hinv
  end.
  destruct (for_loop PARTICLE_COUNT _ _) as [cols k'].
  cbn [fst snd currentPositions targetPositions colors sizes] in *.
  split; [reflexivity|]. split; [reflexivity|]. split; [|reflexivity].
  apply Hinv; [reflexivity|].
  intros i [cl kk] _ Hacc. destruct (Rltb 0.3 (Math_random kk));
    cbn [fst] in *; rewrite length_write3; exact Hacc.
Qed.

(** X11.  Whatever effects and frames follow [useMemo], in whatever
    order, no buffer ever changes its length, and the size buffer keeps
    the very values it was created with. *)
Theorem session_keeps_buffer_sizes (start bufs : Buffers) :
  Session Math_random gold start bufs ->
  length (currentPositions bufs) = length (currentPositions start) /\
  length (targetPositions bufs) = length (targetPositions start) /\
  length (colors bufs) = length (colors start) /\
  sizes bufs = sizes start.
Proof.
  induction 1 as [|b shape k _ IH|b pr baseColor k _ IH|b pr gesture delta time k _ IH].
  - auto.
  - destruct (retarget_frame shape b k) as (H1 & H2 & H3 & H4).
    destruct IH as (I1 & I2 & I3 & I4).
    rewrite H1, H2, H3, H4. auto.
  - destruct (retint_frame pr baseColor b k) as (H1 & H2 & H3 & H4).
    destruct IH as (I1 & I2 & I3 & I4).
    rewrite H1, H2, H3, H4. auto.
  - destruct (useFrame_frame pr b gesture delta time k) as (H1 & H2 & H3 & H4).
    destruct IH as (I1 & I2 & I3 & I4).
    rewrite H1, H2, H3, H4. auto.
Qed.

End SessionProperties.

(** ** Frames *)

(** X12.  With the hand closed, a frame multiplies the distance of every
    particle from its target by [1 - 3 * delta] along x and z, and along
    y up to the twinkle, which moves the height by at most 0.01: a
    particle resting on its target keeps x and z and stays within 0.01 of
    its height. *)
Theorem closed_hand_frame_error (Math_random : nat -> R) (points : Points)
    (bufs : Buffers) (gesture : GestureState) (delta time : R) (k i : nat)
    (x y z tx ty tz : R) :
  length (currentPositions bufs) = (PARTICLE_COUNT * 3)%nat ->
  spreadFactor gesture <= 0.1 ->
  (i < PARTICLE_COUNT)%nat ->
  rd3 (currentPositions bufs) i = (x, y, z) ->
  rd3 (targetPositions bufs) i = (tx, ty, tz) ->
  exists x' y' z',
    particle (currentPositions
                (snd (fst (useFrame Math_random (Some points) bufs gesture delta time k)))) i
    = Some (x', y', z') /\
    x' - tx = (1 - 3 * delta) * (x - tx) /\
    z' - tz = (1 - 3 * delta) * (z - tz) /\
    y' - ty = (1 - 3 * delta) * (y - ty) + sin (time + INR (i * 3)) * 0.01 /\
    Rabs (y' - ty - (1 - 3 * delta) * (y - ty)) <= 0.01 /\
    ((x, y, z) = (tx, ty, tz) -> x' = x /\ z' = z /\ Rabs (y' - y) <= 0.01).
Proof.
  intros Hlen Hs Hi Hcur Htgt.
  pose proof (useFrame_closed_hand Math_random points bufs gesture delta time k
                Hlen Hs i Hi) as Hp.
  destruct (useFrame_frame Math_random (Some points) bufs gesture delta time k)
    as (Hl & _).
  rewrite Hcur, Htgt in Hp. unfold smooth3, twinkle, smooth, lerpSpeed in Hp.
  eexists _, _, _. split.
  { rewrite particle_rd3 by lia. rewrite Hp. reflexivity. }
  pose proof (SIN_bound (time + INR (i * 3))) as Hsin.
  assert (Htw : Rabs (sin (time + INR (i * 3)) * 0.01) <= 0.01)
    by (apply Rabs_le; lra).
  assert (E3 : 3.0 = 3) by lra. rewrite E3. clear Hp Hl.
  split; [ring|]. split; [ring|]. split; [ring|]. split.
  - replace (y + (ty - y) * (3 * delta) + sin (time + INR (i * 3)) * 0.01 - ty
             - (1 - 3 * delta) * (y - ty))
      with (sin (time + INR (i * 3)) * 0.01) by ring.
    exact Htw.
  - intros Heq. injection Heq as -> -> ->.
    split; [ring|]. split; [ring|].
    replace (ty + (ty - ty) * (3 * delta) + sin (time + INR (i * 3)) * 0.01 - ty)
      with (sin (time + INR (i * 3)) * 0.01) by ring.
    exact Htw.
Qed.

(** X13.  With the hand closed a frame makes no draw and does not
    depend on the random source at all. *)
Theorem closed_hand_frame_draws_nothing (random1 random2 : nat -> R)
    (pointsRef : option Points) (bufs : Buffers) (gesture : GestureState)
    (delta time : R) (k : nat) :
  spreadFactor gesture <= 0.1 ->
  useFrame random1 pointsRef bufs gesture delta time k
  = useFrame random2 pointsRef bufs gesture delta time k /\
  snd (useFrame random1 pointsRef bufs gesture delta time k) = k.
Proof.
  intros Hs. destruct pointsRef as [points|]; [|split; reflexivity].
  unfold useFrame.
  rewrite (for_loop_ext PARTICLE_COUNT
             (frameParticle random1 (spreadFactor gesture) (lerpSpeed delta) time
                (targetPositions bufs))
             (frameParticle random2 (spreadFactor gesture) (lerpSpeed delta) time
                (targetPositions bufs))).
  - split; [reflexivity|].
    match goal with
    | |- context [for_loop PARTICLE_COUNT ?body ?init] =>
        pose proof (for_loop_inv (fun _ st => snd st = k) PARTICLE_COUNT body init) as Hinv
    end.
    destruct (for_loop PARTICLE_COUNT _ _) as [current k'].
    cbn [snd] in *. apply Hinv; [reflexivity|].
    intros i [cur kk] _ Hkk. cbn [snd] in Hkk. subst kk.
    unfold frameParticle. rewrite adjustedTarget_closed by exact Hs. reflexivity.
  - intros i [cur kk] _. unfold frameParticle.
    rewrite !adjustedTarget_closed by exact Hs. reflexivity.
Qed.

(** X14.  With the hand open (spread factor above 0.1) the target of a
    particle is its base point scaled by [1 + spread] about the origin,
    moved on every axis by a jitter of at most half the spread factor;
    three draws are made for it. *)
Theorem open_hand_target (Math_random : nat -> R) (spread tx ty tz : R) (k : nat) :
  (forall j, 0 <= Math_random j < 1) ->
  0.1 < spread ->
  exists ax ay az,
    adjustedTarget Math_random spread (tx, ty, tz) k = ((ax, ay, az), (k + 3)%nat) /\
    Rabs (ax - (1 + spread) * tx) <= spread / 2 /\
    Rabs (ay - (1 + spread) * ty) <= spread / 2 /\
    Rabs (az - (1 + spread) * tz) <= spread / 2.
Proof.
  intros Hrange Hs. unfold adjustedTarget.
  rewrite (proj2 (Rltb_true 0.1 spread) Hs).
  pose proof (Hrange k). pose proof (Hrange (k + 1)%nat). pose proof (Hrange (k + 2)%nat).
  eexists _, _, _. split; [reflexivity|].
  repeat split; apply Rabs_le; nra.
Qed.

(** X15.  The scene never turns faster than 2 radians per second: for a
    hand position [rotationX] in [0, 1] the rotation of a frame is at
    most [2 * delta] in absolute value, and without a hand it is
    [0.1 * delta]. *)
Theorem rotation_speed_bound (gesture : GestureState) (delta : R) :
  0 <= delta ->
  0 <= rotationX gesture <= 1 ->
  Rabs (rotationDelta gesture delta) <= 2 * delta.
Proof.
  intros Hd Hx. unfold rotationDelta.
  destruct (handDetected gesture); apply Rabs_le; nra.
Qed.

(** ** Gestures *)

(** The gesture of a hand, spelled out in its seven landmarks. *)
Lemma handFrame_explicit (hand : list NormalizedLandmark.t)
    (wrist thumbTip indexTip knuckle middleTip ringTip pinkyTip : NormalizedLandmark.t) :
  hand !! 0%nat = Some wrist ->
  hand !! 4%nat = Some thumbTip ->
  hand !! 8%nat = Some indexTip ->
  hand !! 9%nat = Some knuckle ->
  hand !! 12%nat = Some middleTip ->
  hand !! 16%nat = Some ringTip ->
  hand !! 20%nat = Some pinkyTip ->
  let avg := (0 + tipDistance wrist thumbTip + tipDistance wrist indexTip
              + tipDistance wrist middleTip + tipDistance wrist ringTip
              + tipDistance wrist pinkyTip) / 5 in
  averageTipDistance hand = Normal avg /\
  handFrame hand
  = Normal (mkGesture (Rltb 0.6 (clamp01 ((avg - 0.2) / (0.4 - 0.2))))
                      (clamp01 ((avg - 0.2) / (0.4 - 0.2)))
                      (1.0 - NormalizedLandmark.x knuckle)
                      (landmarkDistance thumbTip indexTip)
                      (Rltb (landmarkDistance thumbTip indexTip) 0.05)
                      true).
Proof.
  intros H0 H4 H8 H9 H12 H16 H20 avg. subst avg.
  unfold handFrame, averageTipDistance, pinchDist. cbn [fold_left].
  rewrite H0, H4, H8, H9, H12, H16, H20. cbn. split; reflexivity.
Qed.

(** A hand that is interpreted has all its landmarks. *)
Lemma handFrame_complete (hand : list NormalizedLandmark.t) (g : GestureState) :
  handFrame hand = Normal g -> (21 <= length hand)%nat.
Proof.
  intros Hrun. destruct (decide (21 <= length hand)%nat) as [H|H]; [exact H|].
  rewrite handFrame_short in Hrun by lia. discriminate.
Qed.

Lemma pinchDist_nonneg (hand : list NormalizedLandmark.t) (d : R) :
  pinchDist hand = Normal d -> 0 <= d.
Proof.
  unfold pinchDist.
  destruct (hand !! 4%nat) as [l4|]; cbn; [|discriminate].
  destruct (hand !! 8%nat) as [l8|]; cbn; [|discriminate].
  intros Hd. injection Hd as <-. apply sqrt_pos.
Qed.

Lemma predictWebcam_pinch_nonneg (results : option HandLandmarkerResult)
    (gesture g' : GestureState) :
  0 <= pinchDistance gesture ->
  predictWebcam results gesture = Normal g' ->
  0 <= pinchDistance g'.
Proof.
  intros Hpos Hrun. destruct (noHand results) eqn:Hhand.
  - rewrite predictWebcam_noHand in Hrun by exact Hhand.
    injection Hrun as <-. exact Hpos.
  - destruct results as [[[|hand rest]]|]; try discriminate.
    change (handFrame hand = Normal g') in Hrun. unfold handFrame in Hrun.
    destruct (averageTipDistance hand) as [avg|]; cbn in Hrun; [|discriminate].
    destruct (get_x (hand !! 9%nat)) as [k9|]; cbn in Hrun; [|discriminate].
    destruct (pinchDist hand) as [pinch|] eqn:Hp; cbn in Hrun; [|discriminate].
    injection Hrun as <-. cbn [pinchDistance]. exact (pinchDist_nonneg hand pinch Hp).
Qed.

(** X18.  Along any run of video frames that does not fail, [openness]
    stays in [0, 1] and [pinchDistance] stays non-negative, as they are
    in the initial state. *)
Theorem gesture_stays_in_range (frames : list (option HandLandmarkerResult))
    (gesture g' : GestureState) :
  0 <= openness gesture <= 1 ->
  0 <= pinchDistance gesture ->
  runFrames frames gesture = Normal g' ->
  0 <= openness g' <= 1 /\ 0 <= pinchDistance g'.
Proof.
  revert g'. induction frames as [|results frames IH] using rev_ind;
    intros g' Ho Hp Hrun.
  - injection Hrun as <-. split; assumption.
  - rewrite runFrames_snoc in Hrun.
    destruct (runFrames frames gesture) as [g1|]; cbn in Hrun; [|discriminate].
    destruct (IH g1 Ho Hp eq_refl) as [Ho1 Hp1].
    split.
    + exact (predictWebcam_openness_range results g1 g' Ho1 Hrun).
    + exact (predictWebcam_pinch_nonneg results g1 g' Hp1 Hrun).
Qed.

(** X19.  Twenty frames without a hand bring any [openness] of at most
    1 to exactly 0, where it stays; [isOpen] is not refreshed on the
    way and keeps the value of the last detected hand. *)
Theorem decay_reaches_zero (frames : list (option HandLandmarkerResult))
    (gesture : GestureState) :
  forallb noHand frames = true ->
  (20 <= length frames)%nat ->
  openness gesture <= 1 ->
  exists g',
    runFrames frames gesture = Normal g' /\
    openness g' = 0 /\
    handDetected g' = false /\
    isOpen g' = isOpen gesture.
Proof.
  intros Hall Hn Ho.
  destruct (length frames) as [|n] eqn:En; [lia|].
  exists (Nat.iter (S n) noHandFrame gesture).
  split; [rewrite <- En; apply runFrames_noHand; exact Hall|].
  rewrite iter_noHandFrame. cbn [openness handDetected isOpen].
  split; [|split; reflexivity].
  assert (Hn20 : 20 <= INR (S n)).
  { replace 20 with (INR 20) by (simpl; lra). apply le_INR. lia. }
  unfold Rmax. destruct (Rle_dec _ _); lra.
Qed.

(** X20.  For a detected hand, [openness] is the average distance of the
    five finger tips from the wrist, mapped linearly from [0.2, 0.4]
    onto [0, 1] and clamped: 0 up to an average of 0.2, 1 from 0.4 on;
    and [isOpen] holds exactly when the average is above 0.32. *)
Theorem openness_thresholds (hand : list NormalizedLandmark.t)
    (rest : list (list NormalizedLandmark.t)) (previous g : GestureState) (avg : R) :
  predictWebcam (Some (mkResult (hand :: rest))) previous = Normal g ->
  averageTipDistance hand = Normal avg ->
  (avg <= 0.2 -> openness g = 0) /\
  (0.2 <= avg <= 0.4 -> openness g = 5 * (avg - 0.2)) /\
  (0.4 <= avg -> openness g = 1) /\
  (isOpen g = true <-> 0.32 < avg).
Proof.
  intros Hrun Havg. change (handFrame hand = Normal g) in Hrun.
  unfold handFrame in Hrun. rewrite Havg in Hrun. cbn in Hrun.
  destruct (get_x (hand !! 9%nat)) as [k9|]; cbn in Hrun; [|discriminate].
  destruct (pinchDist hand) as [pinch|]; cbn in Hrun; [|discriminate].
  injection Hrun as <-. cbn [openness isOpen].
  assert (E : (avg - 0.2) / (0.4 - 0.2) = 5 * (avg - 0.2)) by lra.
  rewrite E. split; [|split; [|split]].
  - intros H. apply clamp01_below. lra.
  - intros H. apply clamp01_inside. lra.
  - intros H. apply clamp01_above. lra.
  - rewrite Rltb_true.
    destruct (Rle_dec avg 0.2) as [Hlo|Hlo].
    + rewrite clamp01_below by lra. lra.
    + destruct (Rle_dec 0.4 avg) as [Hhi|Hhi].
      * rewrite clamp01_above by lra. lra.
      * rewrite clamp01_inside by lra. lra.
Qed.

Lemma lookup_moved (f : NormalizedLandmark.t -> NormalizedLandmark.t)
    (hand : list NormalizedLandmark.t) (i : nat) (lm : NormalizedLandmark.t) :
  hand !! i = Some lm -> (f <$> hand) !! i = Some (f lm).
Proof. intros H. rewrite list_lookup_fmap, H. reflexivity. Qed.

Lemma tipDistance_translate (dx dy : R) (a b : NormalizedLandmark.t) :
  tipDistance (translate dx dy a) (translate dx dy b) = tipDistance a b.
Proof.
  unfold tipDistance, translate. cbn [NormalizedLandmark.x NormalizedLandmark.y].
  f_equal. ring.
Qed.

Lemma landmarkDistance_translate (dx dy : R) (a b : NormalizedLandmark.t) :
  landmarkDistance (translate dx dy a) (translate dx dy b) = landmarkDistance a b.
Proof.
  unfold landmarkDistance, translate. cbn [NormalizedLandmark.x NormalizedLandmark.y].
  f_equal. ring.
Qed.

Lemma tipDistance_mirror (a b : NormalizedLandmark.t) :
  tipDistance (mirror a) (mirror b) = tipDistance a b.
Proof.
  unfold tipDistance, mirror. cbn [NormalizedLandmark.x NormalizedLandmark.y].
  f_equal. ring.
Qed.

Lemma landmarkDistance_mirror (a b : NormalizedLandmark.t) :
  landmarkDistance (mirror a) (mirror b) = landmarkDistance a b.
Proof.
  unfold landmarkDistance, mirror. cbn [NormalizedLandmark.x NormalizedLandmark.y].
  f_equal. ring.
Qed.

(** The seven landmarks of an interpreted hand. *)
Lemma handFrame_landmarks (hand : list NormalizedLandmark.t) (g : GestureState) :
  handFrame hand = Normal g ->
  exists wrist thumbTip indexTip knuckle middleTip ringTip pinkyTip,
    hand !! 0%nat = Some wrist /\ hand !! 4%nat = Some thumbTip /\
    hand !! 8%nat = Some indexTip /\ hand !! 9%nat = Some knuckle /\
    hand !! 12%nat = Some middleTip /\ hand !! 16%nat = Some ringTip /\
    hand !! 20%nat = Some pinkyTip.
Proof.
  intros Hrun. pose proof (handFrame_complete hand g Hrun) as Hlen.
  destruct (lookup_lt_is_Some_2 hand 0) as [l0 H0]; [lia|].
  destruct (lookup_lt_is_Some_2 hand 4) as [l4 H4]; [lia|].
  destruct (lookup_lt_is_Some_2 hand 8) as [l8 H8]; [lia|].
  destruct (lookup_lt_is_Some_2 hand 9) as [l9 H9]; [lia|].
  destruct (lookup_lt_is_Some_2 hand 12) as [l12 H12]; [lia|].
  destruct (lookup_lt_is_Some_2 hand 16) as [l16 H16]; [lia|].
  destruct (lookup_lt_is_Some_2 hand 20) as [l20 H20]; [lia|].
  exists l0, l4, l8, l9, l12, l16, l20. auto 10.
Qed.

(** X21.  The gesture depends on the shape of the hand, not on where it
    is in the image: moving every landmark by the same [(dx, dy)] keeps
    [openness], [isOpen], [pinchDistance] and [isPinching], and lowers
    [rotationX] by [dx]. *)
Theorem gesture_of_translated_hand (hand : list NormalizedLandmark.t)
    (rest : list (list NormalizedLandmark.t)) (previous g : GestureState) (dx dy : R) :
  predictWebcam (Some (mkResult (hand :: rest))) previous = Normal g ->
  predictWebcam (Some (mkResult ((translate dx dy <$> hand) :: rest))) previous
  = Normal (mkGesture (isOpen g) (openness g) (rotationX g - dx)
                      (pinchDistance g) (isPinching g) true).
Proof.
  intros Hrun. change (handFrame hand = Normal g) in Hrun.
  change (handFrame (translate dx dy <$> hand)
          = Normal (mkGesture (isOpen g) (openness g) (rotationX g - dx)
                              (pinchDistance g) (isPinching g) true)).
  destruct (handFrame_landmarks hand g Hrun)
    as (l0 & l4 & l8 & l9 & l12 & l16 & l20 & H0 & H4 & H8 & H9 & H12 & H16 & H20).
  destruct (handFrame_explicit hand l0 l4 l8 l9 l12 l16 l20 H0 H4 H8 H9 H12 H16 H20)
    as [_ Hg].
  rewrite Hg in Hrun. injection Hrun as <-.
  destruct (handFrame_explicit (translate dx dy <$> hand)
              (translate dx dy l0) (translate dx dy l4) (translate dx dy l8)
              (translate dx dy l9) (translate dx dy l12) (translate dx dy l16)
              (translate dx dy l20)) as [_ Hg']; try (apply lookup_moved; assumption).
  rewrite Hg'. rewrite !tipDistance_translate, !landmarkDistance_translate.
  cbn [isOpen openness rotationX pinchDistance isPinching].
  f_equal. f_equal. unfold translate. cbn [NormalizedLandmark.x]. lra.
Qed.

(** X22.  Mirroring the image keeps [openness], [isOpen],
    [pinchDistance] and [isPinching] and reflects the hand position:
    [rotationX] becomes [1 - rotationX]. *)
Theorem gesture_of_mirrored_hand (hand : list NormalizedLandmark.t)
    (rest : list (list NormalizedLandmark.t)) (previous g : GestureState) :
  predictWebcam (Some (mkResult (hand :: rest))) previous = Normal g ->
  predictWebcam (Some (mkResult ((mirror <$> hand) :: rest))) previous
  = Normal (mkGesture (isOpen g) (openness g) (1 - rotationX g)
                      (pinchDistance g) (isPinching g) true).
Proof.
  intros Hrun. change (handFrame hand = Normal g) in Hrun.
  change (handFrame (mirror <$> hand)
          = Normal (mkGesture (isOpen g) (openness g) (1 - rotationX g)
                              (pinchDistance g) (isPinching g) true)).
  destruct (handFrame_landmarks hand g Hrun)
    as (l0 & l4 & l8 & l9 & l12 & l16 & l20 & H0 & H4 & H8 & H9 & H12 & H16 & H20).
  destruct (handFrame_explicit hand l0 l4 l8 l9 l12 l16 l20 H0 H4 H8 H9 H12 H16 H20)
    as [_ Hg].
  rewrite Hg in Hrun. injection Hrun as <-.
  destruct (handFrame_explicit (mirror <$> hand)
              (mirror l0) (mirror l4) (mirror l8) (mirror l9) (mirror l12)
              (mirror l16) (mirror l20)) as [_ Hg']; try (apply lookup_moved; assumption).
  rewrite Hg'. rewrite !tipDistance_mirror, !landmarkDistance_mirror.
  cbn [isOpen openness rotationX pinchDistance isPinching].
  f_equal. f_equal. unfold mirror. cbn [NormalizedLandmark.x]. lra.
Qed.

Lemma runFrames_failed (frames : list (option HandLandmarkerResult)) :
  fold_left (fun acc results => g ← acc; predictWebcam results g) frames TypeError
  = TypeError.
Proof. induction frames as [|results frames IH]; [reflexivity | exact IH]. Qed.

(** X24.  The loop does not recover from a malformed hand: once a frame
    brings a first hand of fewer than 21 landmarks, the run has failed,
    whatever came before and whatever the detector reports afterwards. *)
Theorem malformed_hand_ends_the_run (before after : list (option HandLandmarkerResult))
    (hand : list NormalizedLandmark.t) (rest : list (list NormalizedLandmark.t))
    (gesture : GestureState) :
  (length hand < 21)%nat ->
  runFrames (before ++ Some (mkResult (hand :: rest)) :: after) gesture = TypeError.
Proof.
  intros Hlen. unfold runFrames. rewrite fold_left_app. cbn [fold_left].
  match goal with
  | |- fold_left _ after ?c = _ => assert (Hc : c = TypeError)
  end.
  { destruct (fold_left _ before _) as [g1|]; cbn; [|reflexivity].
    apply handFrame_short. exact Hlen. }
  rewrite Hc. apply runFrames_failed.
Qed.

(** ** Concrete runs of the further properties *)

Lemma sampleSource_range : forall k : nat, 0 <= sampleSource k < 1.
Proof. intros k. unfold sampleSource. lra. Qed.

(** The second point of a two-point tree. *)
Lemma tree_bounding_box_witness :
  (1 < 2)%nat /\
  exists x y z,
    particle (fst (generateTreePoints sampleSource 2 0)) 1 = Some (x, y, z) /\
    -3 < y <= 4 /\ Rabs x < 3.75 /\ Rabs z < 3.75.
Proof.
  split; [lia|].
  destruct (tree_bounding_box sampleSource sampleSource_range 2 0 1)
    as (x & y & z & Hp & Hy & _ & _ & Hx & Hz); [lia|].
  exists x, y, z. auto.
Defined.

(** The first and the third point of a four-point tree. *)
Lemma tree_heights_descend_witness :
  (0 < 2)%nat /\ (2 < 4)%nat /\
  exists yi yj,
    fst (generateTreePoints sampleSource 4 0) !! (0 * 3 + 1)%nat = Some yi /\
    fst (generateTreePoints sampleSource 4 0) !! (2 * 3 + 1)%nat = Some yj /\
    yj < yi.
Proof.
  split; [lia|]. split; [lia|].
  destruct (tree_heights_descend sampleSource 4 0 0 2)
    as (yi & yj & Hi & Hj & _ & Hlt); [lia | lia |].
  exists yi, yj. auto.
Defined.

(** The first point of a one-point heart. *)
Lemma heart_bounding_box_witness :
  (0 < 1)%nat /\
  exists x y z,
    particle (fst (generateHeartPoints sampleSource 1 0)) 0 = Some (x, y, z) /\
    Rabs x < 4 /\ Rabs y < 5.25 /\ -1 <= z < 1.
Proof.
  split; [lia|].
  apply (heart_bounding_box sampleSource sampleSource_range 1 0 0). lia.
Defined.

(** The first point of a one-point star. *)
Lemma star_bounding_cylinder_witness :
  (0 < 1)%nat /\
  exists x y z,
    particle (fst (generateStarPoints sampleSource 1 0)) 0 = Some (x, y, z) /\
    x * x + y * y < 5.5 * 5.5 /\ -0.75 <= z < 0.75.
Proof.
  split; [lia|].
  apply (star_bounding_cylinder sampleSource sampleSource_range 1 0 0). lia.
Defined.

(** The first point of a one-point flower. *)
Lemma flower_extent_witness :
  (0 < 1)%nat /\
  exists x y z,
    particle (fst (generateFlowerPoints sampleSource 1 0)) 0 = Some (x, y, z) /\
    sqrt (x * x + y * y) < 4 /\ -2 <= z < 2.
Proof.
  split; [lia|].
  destruct (flower_extent sampleSource sampleSource_range 1 0 0)
    as (x & y & z & Hp & _ & Hr & Hz); [lia|].
  exists x, y, z. auto.
Defined.

(** The first point of a one-point sphere: it lies on the equator. *)
Lemma sphere_latitude_witness :
  (0 < 1)%nat /\
  exists x y z,
    particle (fst (generateSpherePoints sampleSource 1 0)) 0 = Some (x, y, z) /\
    z = (4 + sampleSource 2) * (2 * sampleSource 1 - 1).
Proof.
  split; [lia|].
  destruct (sphere_latitude sampleSource sampleSource_range 1 0 0)
    as (x & y & z & Hp & Hz & _); [lia|].
  exists x, y, z. auto.
Defined.

(** Two sources that differ from the seventh draw on give the same tree
    of two points, which takes four draws. *)
Lemma generate_reads_its_window_witness :
  generate (fun j => if (j <? 6)%nat then 0.5 else 0) TREE 2 0
  = generate sampleSource TREE 2 0.
Proof.
  apply (generate_reads_its_window (fun j => if (j <? 6)%nat then 0.5 else 0)
           sampleSource TREE 2 0).
  intros j Hj. cbn [draws] in Hj. unfold sampleSource.
  destruct (Nat.ltb_spec j 6); [reflexivity | lia].
Defined.

(** The first particle of a fresh component: the draw 0.5 picks the
    first colour and the small size. *)
Lemma init_colors_and_sizes_witness :
  (0 < PARTICLE_COUNT)%nat /\
  sizes (fst sampleInit) !! 0%nat = Some 0.15.
Proof.
  assert (H0 : (0 < PARTICLE_COUNT)%nat) by (unfold PARTICLE_COUNT; lia).
  split; [exact H0|]. unfold sampleInit.
  pose proof (init_colors_and_sizes sampleSource (Color.mk 0 0 0) (Color.mk 0 0 0)
                (Color.mk 0 0 0) 0 0 H0) as H.
  cbv zeta in H. destruct H as (_ & Hs & _).
  rewrite Hs. unfold sampleSource. f_equal.
  rewrite (proj2 (Rltb_false 0.5 0.1)) by lra. reflexivity.
Defined.

(** The colour effect on the sample buffers, with red as the new colour. *)
Lemma retint_effect_witness :
  length (colors sampleBuffers) = (PARTICLE_COUNT * 3)%nat /\
  currentPositions
    (fst (retint sampleSource (Color.mk 1 0.8 0) (Some (mkPoints 0))
            (Color.mk 1 0 0) sampleBuffers 0))
  = currentPositions sampleBuffers.
Proof.
  assert (Hlen : length (colors sampleBuffers) = (PARTICLE_COUNT * 3)%nat)
    by apply length_replicate.
  split; [exact Hlen|].
  pose proof (retint_effect sampleSource (Color.mk 1 0.8 0) (mkPoints 0)
                (Color.mk 1 0 0) sampleBuffers 0 Hlen) as H.
  cbv zeta in H. destruct H as (_ & _ & Hc & _). exact Hc.
Defined.

(** A change of shape followed by a frame. *)
Lemma session_keeps_buffer_sizes_witness :
  sizes (snd (fst (useFrame sampleSource (Some (mkPoints 0))
                     (fst (retarget sampleSource HEART sampleBuffers 0))
                     initialGesture 0.016 0 0)))
  = sizes sampleBuffers.
Proof.
  apply (session_keeps_buffer_sizes sampleSource (Color.mk 1 0.8 0) sampleBuffers).
  apply session_frame. apply session_retarget. apply session_start.
Defined.

(** A frame with the hand closed on the sample buffers: the first
    particle covers three tenths of the way from 0 to 1. *)
Lemma closed_hand_frame_error_witness :
  length (currentPositions sampleBuffers) = (PARTICLE_COUNT * 3)%nat /\
  spreadFactor initialGesture <= 0.1 /\
  (0 < PARTICLE_COUNT)%nat /\
  exists x' y' z',
    particle (currentPositions
                (snd (fst (useFrame sampleSource (Some (mkPoints 0)) sampleBuffers
                             initialGesture 0.1 0 0)))) 0
    = Some (x', y', z') /\
    x' - 1 = (1 - 3 * 0.1) * (0 - 1).
Proof.
  assert (Hlen : length (currentPositions sampleBuffers) = (PARTICLE_COUNT * 3)%nat)
    by apply length_replicate.
  assert (Hs : spreadFactor initialGesture <= 0.1)
    by (unfold spreadFactor, initialGesture; cbn [openness]; lra).
  assert (H0 : (0 < PARTICLE_COUNT)%nat) by (unfold PARTICLE_COUNT; lia).
  split; [exact Hlen|]. split; [exact Hs|]. split; [exact H0|].
  destruct (closed_hand_frame_error sampleSource (mkPoints 0) sampleBuffers
              initialGesture 0.1 0 0 0 0 0 0 1 1 1 Hlen Hs H0)
    as (x' & y' & z' & Hp & Hx & _).
  - apply rd3_replicate. unfold PARTICLE_COUNT. lia.
  - apply rd3_replicate. unfold PARTICLE_COUNT. lia.
  - exists x', y', z'. auto.
Defined.

(** The same frame under two different random sources. *)
Lemma closed_hand_frame_draws_nothing_witness :
  spreadFactor initialGesture <= 0.1 /\
  useFrame sampleSource (Some (mkPoints 0)) sampleBuffers initialGesture 0.1 0 0
  = useFrame (fun _ => 0) (Some (mkPoints 0)) sampleBuffers initialGesture 0.1 0 0.
Proof.
  assert (Hs : spreadFactor initialGesture <= 0.1)
    by (unfold spreadFactor, initialGesture; cbn [openness]; lra).
  split; [exact Hs|].
  apply (closed_hand_frame_draws_nothing sampleSource (fun _ => 0)). exact Hs.
Defined.

(** A fully open hand: the target (1, 1, 1) is pushed to (4, 4, 4), up
    to 1.5 on every axis. *)
Lemma open_hand_target_witness :
  0.1 < 3 /\
  exists ax ay az,
    adjustedTarget sampleSource 3 (1, 1, 1) 0 = ((ax, ay, az), 3%nat) /\
    Rabs (ax - (1 + 3) * 1) <= 3 / 2.
Proof.
  split; [lra|].
  destruct (open_hand_target sampleSource 3 1 1 1 0 sampleSource_range)
    as (ax & ay & az & Ht & Hx & _); [lra|].
  exists ax, ay, az. auto.
Defined.

(** A hand at the right edge, for a frame of 16 ms. *)
Lemma rotation_speed_bound_witness :
  0 <= 0.016 /\
  0 <= rotationX (mkGesture true 1 1 0.2 false true) <= 1 /\
  Rabs (rotationDelta (mkGesture true 1 1 0.2 false true) 0.016) <= 2 * 0.016.
Proof.
  split; [lra|]. split; [cbn [rotationX]; lra|].
  apply rotation_speed_bound; [lra | cbn [rotationX]; lra].
Defined.

(** One frame without a hand from the initial state. *)
Lemma gesture_stays_in_range_witness :
  0 <= openness initialGesture <= 1 /\
  0 <= pinchDistance initialGesture /\
  0 <= openness (noHandFrame initialGesture) <= 1.
Proof.
  assert (Ho : 0 <= openness initialGesture <= 1) by (cbn [initialGesture openness]; lra).
  assert (Hp : 0 <= pinchDistance initialGesture)
    by (cbn [initialGesture pinchDistance]; lra).
  split; [exact Ho|]. split; [exact Hp|].
  apply (gesture_stays_in_range [None] initialGesture (noHandFrame initialGesture) Ho Hp).
  reflexivity.
Defined.

(** Twenty frames without a hand after a fully open one. *)
Lemma decay_reaches_zero_witness :
  forallb noHand (replicate 20 None) = true /\
  (20 <= length (replicate 20 (@None HandLandmarkerResult)))%nat /\
  exists g',
    runFrames (replicate 20 None) (mkGesture true 1 0.5 0.2 false true) = Normal g' /\
    openness g' = 0 /\ isOpen g' = true.
Proof.
  split; [reflexivity|]. split; [cbn; lia|].
  destruct (decay_reaches_zero (replicate 20 None) (mkGesture true 1 0.5 0.2 false true))
    as (g' & Hrun & Ho & _ & Hi); [reflexivity | cbn; lia | cbn [openness]; lra |].
  exists g'. auto.
Defined.

(** A full hand gathered at the centre of the image. *)
Lemma openness_thresholds_witness :
  exists g avg,
    predictWebcam (Some (mkResult [sampleHand 21 0.03])) initialGesture = Normal g /\
    averageTipDistance (sampleHand 21 0.03) = Normal avg /\
    (isOpen g = true <-> 0.32 < avg).
Proof.
  destruct (handFrame_defined (sampleHand 21 0.03))
    as (avg & l9 & l4 & l8 & _ & _ & _ & Havg & Hrun).
  { unfold sampleHand. rewrite length_insert, length_replicate. lia. }
  eexists _, avg. split; [exact Hrun|]. split; [exact Havg|].
  apply (openness_thresholds (sampleHand 21 0.03) [] initialGesture _ avg Hrun Havg).
Defined.

(** The sample hand moved a tenth to the right. *)
Lemma gesture_of_translated_hand_witness :
  exists g,
    predictWebcam (Some (mkResult [sampleHand 21 0.03])) initialGesture = Normal g /\
    predictWebcam (Some (mkResult [translate 0.1 0 <$> sampleHand 21 0.03]))
      initialGesture
    = Normal (mkGesture (isOpen g) (openness g) (rotationX g - 0.1)
                        (pinchDistance g) (isPinching g) true).
Proof.
  destruct (sampleHand_pinch 0.03 initialGesture) as (g & Hrun & _); [lra|].
  exists g. split; [exact Hrun|].
  apply (gesture_of_translated_hand (sampleHand 21 0.03) [] initialGesture g 0.1 0 Hrun).
Defined.

(** The sample hand in the mirrored image. *)
Lemma gesture_of_mirrored_hand_witness :
  exists g,
    predictWebcam (Some (mkResult [sampleHand 21 0.03])) initialGesture = Normal g /\
    predictWebcam (Some (mkResult [mirror <$> sampleHand 21 0.03])) initialGesture
    = Normal (mkGesture (isOpen g) (openness g) (1 - rotationX g)
                        (pinchDistance g) (isPinching g) true).
Proof.
  destruct (sampleHand_pinch 0.03 initialGesture) as (g & Hrun & _); [lra|].
  exists g. split; [exact Hrun|].
  apply (gesture_of_mirrored_hand (sampleHand 21 0.03) [] initialGesture g Hrun).
Defined.

(** A hand of 20 landmarks between two frames without a hand. *)
Lemma malformed_hand_ends_the_run_witness :
  (length (sampleHand 20 0.03) < 21)%nat /\
  runFrames ([None] ++ Some (mkResult [sampleHand 20 0.03]) :: [None]) initialGesture
  = TypeError.
Proof.
  assert (Hlen : (length (sampleHand 20 0.03) < 21)%nat).
  { unfold sampleHand. rewrite length_insert, length_replicate. lia. }
  split; [exact Hlen|].
  apply (malformed_hand_ends_the_run [None] [None] (sampleHand 20 0.03) [] initialGesture Hlen).
Defined.

(** ** Frames in sequence *)

Lemma untwinkle_twinkle (time : R) (i : nat) (p : R * R * R) :
  untwinkle time i (twinkle time i p) = p.
Proof.
  destruct p as [[x y] z]. unfold untwinkle, twinkle. f_equal. f_equal. ring.
Qed.

Lemma twinkle_untwinkle (time : R) (i : nat) (p : R * R * R) :
  twinkle time i (untwinkle time i p) = p.
Proof.
  destruct p as [[x y] z]. unfold untwinkle, twinkle. f_equal. f_equal. ring.
Qed.

(** The offsets of a particle from its target after one frame's update. *)
Lemma frame_update_offsets (speed time : R) (i : nat) (target p : R * R * R) :
  let q := twinkle time i (smooth3 speed target p) in
  coord 0 q - coord 0 target = (1 - speed) * (coord 0 p - coord 0 target) /\
  coord 1 q - coord 1 target
  = (1 - speed) * (coord 1 p - coord 1 target) + sin (time + INR (i * 3)) * 0.01 /\
  coord 2 q - coord 2 target = (1 - speed) * (coord 2 p - coord 2 target).
Proof.
  destruct target as [[tx ty] tz], p as [[x y] z].
  unfold twinkle, smooth3, smooth. cbn [coord fst snd].
  repeat split; ring.
Qed.

(** A power of a number between 0 and 1 brings any bound below any
    tolerance. *)
Lemma pow_below (a bound tolerance : R) :
  0 < a < 1 -> 0 <= bound -> 0 < tolerance ->
  exists M, forall n, (M <= n)%nat -> a ^ n * bound < tolerance.
Proof.
  intros Ha Hb Htol.
  destruct (pow_lt_1_zero a) with (y := tolerance / (bound + 1)) as [M HM].
  - apply Rabs_def1; lra.
  - apply Rdiv_lt_0_compat; lra.
  - exists M. intros n Hn. specialize (HM n ltac:(lia)).
    apply Rabs_def2 in HM as [HM _].
    assert (Hpow : 0 < a ^ n) by (apply pow_lt; lra).
    apply (Rmult_lt_compat_r (bound + 1)) in HM; [|lra].
    unfold Rdiv in HM. rewrite Rmult_assoc, Rinv_l, Rmult_1_r in HM by lra.
    nra.
Qed.

Section FrameSequences.

Variable Math_random : nat -> R.

Lemma frames_S (n : nat) (points : Points) (bufs : Buffers)
    (gesture : GestureState) (delta : R) (clock : nat -> R) (k : nat) :
  frames Math_random (S n) points bufs gesture delta clock k
  = useFrame Math_random
      (fst (fst (frames Math_random n points bufs gesture delta clock k)))
      (snd (fst (frames Math_random n points bufs gesture delta clock k)))
      gesture delta (clock n)
      (snd (frames Math_random n points bufs gesture delta clock k)).
Proof.
  cbn [frames].
  destruct (frames Math_random n points bufs gesture delta clock k) as [[pr b] k'].
  reflexivity.
Qed.

(** What a sequence of frames keeps: the scene stays mounted, the
    position buffer keeps its size, the target buffer is not written,
    and every frame makes the same number of draws. *)
Lemma frames_inv (n : nat) (points : Points) (bufs : Buffers)
    (gesture : GestureState) (delta : R) (clock : nat -> R) (k : nat) :
  length (currentPositions bufs) = (PARTICLE_COUNT * 3)%nat ->
  (exists points',
     fst (fst (frames Math_random n points bufs gesture delta clock k)) = Some points') /\
  length (currentPositions
            (snd (fst (frames Math_random n points bufs gesture delta clock k))))
  = (PARTICLE_COUNT * 3)%nat /\
  targetPositions (snd (fst (frames Math_random n points bufs gesture delta clock k)))
  = targetPositions bufs /\
  snd (frames Math_random n points bufs gesture delta clock k)
  = (k + spreadDraws (spreadFactor gesture) * PARTICLE_COUNT * n)%nat.
Proof.
  intros Hlen. induction n as [|n IH].
  - cbn [frames fst snd]. split; [exists points; reflexivity|].
    split; [exact Hlen|]. split; [reflexivity|]. lia.
  - destruct IH as ([points' Hpts] & Hl & Ht & Hk).
    rewrite frames_S, Hpts.
    destruct (useFrame_spec Math_random points'
                (snd (fst (frames Math_random n points bufs gesture delta clock k)))
                gesture delta (clock n)
                (snd (frames Math_random n points bufs gesture delta clock k)) Hl)
      as (current' & Heq & Hl' & _).
    rewrite Heq. cbn [fst snd currentPositions targetPositions].
    split; [eexists; reflexivity|]. split; [exact Hl'|]. split; [exact Ht|].
    rewrite Hk. lia.
Qed.

(** The position of a particle after one more frame: smoothed towards
    the adjusted target of that frame, then twinkled. *)
Lemma frames_step (n : nat) (points : Points) (bufs : Buffers)
    (gesture : GestureState) (delta : R) (clock : nat -> R) (k i : nat) :
  length (currentPositions bufs) = (PARTICLE_COUNT * 3)%nat ->
  (i < PARTICLE_COUNT)%nat ->
  rd3 (currentPositions
         (snd (fst (frames Math_random (S n) points bufs gesture delta clock k)))) i
  = twinkle (clock n) i
      (smooth3 (lerpSpeed delta)
         (frameTarget Math_random gesture bufs i
            (snd (frames Math_random n points bufs gesture delta clock k)))
         (rd3 (currentPositions
                 (snd (fst (frames Math_random n points bufs gesture delta clock k)))) i)).
Proof.
  intros Hlen Hi.
  destruct (frames_inv n points bufs gesture delta clock k Hlen)
    as ([points' Hpts] & Hl & Ht & _).
  rewrite frames_S, Hpts.
  destruct (useFrame_spec Math_random points'
              (snd (fst (frames Math_random n points bufs gesture delta clock k)))
              gesture delta (clock n)
              (snd (frames Math_random n points bufs gesture delta clock k)) Hl)
    as (current' & Heq & _ & Hp).
  rewrite Heq. cbn [fst snd currentPositions].
  rewrite Hp by exact Hi. rewrite Ht. reflexivity.
Qed.

(** With the hand closed the adjusted target is the point of the shape. *)
Lemma frameTarget_closed (gesture : GestureState) (bufs : Buffers) (i k : nat) :
  spreadFactor gesture <= 0.1 ->
  frameTarget Math_random gesture bufs i k = rd3 (targetPositions bufs) i.
Proof.
  intros Hs. unfold frameTarget. rewrite adjustedTarget_closed by exact Hs. reflexivity.
Qed.

(** C1.  In every call of the animation callback, for every particle:
    the callback leaves the target buffer as it is and stores the
    smoothed position [position + (target - position) * lerpSpeed] plus
    the twinkle, where [target] is the adjusted target of the frame,
    which with the hand closed is the particle's point of the shape in
    every frame.  With [0 < lerpSpeed < 1] for [lerpSpeed = 3.0 *
    deltaTime] and the twinkle taken off, the distance to the target
    strictly decreases while the position differs from the target, the
    new position lies between the old one and the target on every axis
    (no overshoot), and a position on the target stays on it. *)
Theorem smoothing_converges (points : Points) (bufs : Buffers)
    (gesture : GestureState) (delta : R) (clock : nat -> R) (k n i : nat) :
  length (currentPositions bufs) = (PARTICLE_COUNT * 3)%nat ->
  0 < lerpSpeed delta < 1 ->
  (i < PARTICLE_COUNT)%nat ->
  let before := snd (fst (frames Math_random n points bufs gesture delta clock k)) in
  let after := snd (fst (frames Math_random (S n) points bufs gesture delta clock k)) in
  let target :=
    frameTarget Math_random gesture bufs i
      (snd (frames Math_random n points bufs gesture delta clock k)) in
  let p := rd3 (currentPositions before) i in
  let q := untwinkle (clock n) i (rd3 (currentPositions after) i) in
  (spreadFactor gesture <= 0.1 -> target = rd3 (targetPositions bufs) i) /\
  targetPositions after = targetPositions bufs /\
  particle (currentPositions after) i = Some (twinkle (clock n) i q) /\
  q = smooth3 (lerpSpeed delta) target p /\
  (p <> target -> dist3 q target < dist3 p target) /\
  between3 p q target /\
  (p = target -> q = target).
Proof.
  intros Hlen Hs Hi before after target p q.
  destruct (frames_inv (S n) points bufs gesture delta clock k Hlen)
    as (_ & Hl & Ht & _).
  pose proof (frames_step n points bufs gesture delta clock k i Hlen Hi) as Hstep.
  fold after in Hl, Ht, Hstep. fold before target p in Hstep.
  assert (Hq : q = smooth3 (lerpSpeed delta) target p).
  { subst q. rewrite Hstep. apply untwinkle_twinkle. }
  destruct (smooth3_step (lerpSpeed delta) target p Hs) as (Hdist & Hbetween & Hfix).
  split; [intros Hclosed; apply frameTarget_closed; exact Hclosed|].
  split; [exact Ht|].
  split.
  { rewrite particle_rd3 by lia. subst q. rewrite twinkle_untwinkle. reflexivity. }
  split; [exact Hq|]. rewrite Hq.
  split; [exact Hdist|]. split; [exact Hbetween|].
  intros ->. exact Hfix.
Qed.

End FrameSequences.

Section ClosedHandSequences.

Variable Math_random : nat -> R.

(** With the hand closed, the offsets of a particle from its point of
    the shape after one more frame. *)
Lemma frames_closed_step (n : nat) (points : Points) (bufs : Buffers)
    (gesture : GestureState) (delta : R) (clock : nat -> R) (k i : nat) :
  length (currentPositions bufs) = (PARTICLE_COUNT * 3)%nat ->
  spreadFactor gesture <= 0.1 ->
  (i < PARTICLE_COUNT)%nat ->
  let pos m :=
    rd3 (currentPositions
           (snd (fst (frames Math_random m points bufs gesture delta clock k)))) i in
  let target := rd3 (targetPositions bufs) i in
  coord 0 (pos (S n)) - coord 0 target
  = (1 - lerpSpeed delta) * (coord 0 (pos n) - coord 0 target) /\
  coord 1 (pos (S n)) - coord 1 target
  = (1 - lerpSpeed delta) * (coord 1 (pos n) - coord 1 target)
    + sin (clock n + INR (i * 3)) * 0.01 /\
  coord 2 (pos (S n)) - coord 2 target
  = (1 - lerpSpeed delta) * (coord 2 (pos n) - coord 2 target).
Proof.
  intros Hlen Hs Hi pos target. subst pos target. cbv beta.
  rewrite (frames_step Math_random n points bufs gesture delta clock k i Hlen Hi).
  rewrite frameTarget_closed by exact Hs.
  apply frame_update_offsets.
Qed.

(** With the hand closed, the horizontal offsets after [n] frames. *)
Lemma frames_closed_offsets (n : nat) (points : Points) (bufs : Buffers)
    (gesture : GestureState) (delta : R) (clock : nat -> R) (k i : nat) :
  length (currentPositions bufs) = (PARTICLE_COUNT * 3)%nat ->
  spreadFactor gesture <= 0.1 ->
  (i < PARTICLE_COUNT)%nat ->
  let pos :=
    rd3 (currentPositions
           (snd (fst (frames Math_random n points bufs gesture delta clock k)))) i in
  let start := rd3 (currentPositions bufs) i in
  let target := rd3 (targetPositions bufs) i in
  coord 0 pos - coord 0 target
  = (1 - lerpSpeed delta) ^ n * (coord 0 start - coord 0 target) /\
  coord 2 pos - coord 2 target
  = (1 - lerpSpeed delta) ^ n * (coord 2 start - coord 2 target).
Proof.
  intros Hlen Hs Hi pos start target. subst pos start target.
  induction n as [|n [IHx IHz]].
  - cbn [frames fst snd pow]. split; ring.
  - destruct (frames_closed_step n points bufs gesture delta clock k i Hlen Hs Hi)
      as (Hx & _ & Hz).
    cbv beta in Hx, Hz. rewrite Hx, Hz, IHx, IHz. cbn [pow]. split; ring.
Qed.

(** With the hand closed, the vertical offset after [n] frames: every
    frame adds a twinkle of at most 0.01. *)
Lemma frames_closed_height (n : nat) (points : Points) (bufs : Buffers)
    (gesture : GestureState) (delta : R) (clock : nat -> R) (k i : nat) :
  length (currentPositions bufs) = (PARTICLE_COUNT * 3)%nat ->
  spreadFactor gesture <= 0.1 ->
  0 < lerpSpeed delta < 1 ->
  (i < PARTICLE_COUNT)%nat ->
  let pos :=
    rd3 (currentPositions
           (snd (fst (frames Math_random n points bufs gesture delta clock k)))) i in
  let start := rd3 (currentPositions bufs) i in
  let target := rd3 (targetPositions bufs) i in
  Rabs (coord 1 pos - coord 1 target)
  <= (1 - lerpSpeed delta) ^ n * Rabs (coord 1 start - coord 1 target)
     + 0.01 / lerpSpeed delta * (1 - (1 - lerpSpeed delta) ^ n).
Proof.
  intros Hlen Hs Hl Hi pos start target. subst pos start target.
  set (speed := lerpSpeed delta) in *.
  set (Q := 0.01 / speed).
  assert (HQ : Q * speed = 0.01) by (subst Q; field; lra).
  induction n as [|n IH].
  - cbn [frames fst snd pow]. lra.
  - destruct (frames_closed_step n points bufs gesture delta clock k i Hlen Hs Hi)
      as (_ & Hy & _).
    cbv beta in Hy. fold speed in Hy.
    set (e := coord 1 (rd3 (currentPositions
                 (snd (fst (frames Math_random n points bufs gesture delta clock k)))) i)
              - coord 1 (rd3 (targetPositions bufs) i)) in *.
    set (E0 := Rabs (coord 1 (rd3 (currentPositions bufs) i)
                     - coord 1 (rd3 (targetPositions bufs) i))) in *.
    rewrite Hy. cbn [pow].
    pose proof (SIN_bound (clock n + INR (i * 3))) as Hsin.
    assert (Hw : Rabs (sin (clock n + INR (i * 3)) * 0.01) <= 0.01)
      by (apply Rabs_le; lra).
    assert (Hmul : Rabs ((1 - speed) * e) = (1 - speed) * Rabs e).
    { rewrite Rabs_mult, (Rabs_pos_eq (1 - speed)) by lra. reflexivity. }
    eapply Rle_trans; [apply Rabs_triang|]. rewrite Hmul.
    apply Rle_trans with
      ((1 - speed) * ((1 - speed) ^ n * E0 + Q * (1 - (1 - speed) ^ n)) + Q * speed).
    + apply Rplus_le_compat; [|lra].
      apply Rmult_le_compat_l; [lra | exact IH].
    + right. ring.
Qed.

(** X16.  With the hand closed and [0 < lerpSpeed < 1], after [n] calls
    of the animation callback the x and z offsets of every particle
    from its target are [(1 - lerpSpeed) ^ n] times the first offsets,
    so they fall below every positive tolerance from some frame on.  The
    y offset does not: every frame adds a twinkle of at most 0.01, and
    the offset ends within [0.01 / lerpSpeed] of any tolerance. *)
Theorem smoothing_reaches_any_tolerance (points : Points) (bufs : Buffers)
    (gesture : GestureState) (delta : R) (clock : nat -> R) (k i : nat)
    (tolerance : R) :
  length (currentPositions bufs) = (PARTICLE_COUNT * 3)%nat ->
  spreadFactor gesture <= 0.1 ->
  0 < lerpSpeed delta < 1 ->
  (i < PARTICLE_COUNT)%nat ->
  0 < tolerance ->
  let pos n :=
    rd3 (currentPositions
           (snd (fst (frames Math_random n points bufs gesture delta clock k)))) i in
  let start := rd3 (currentPositions bufs) i in
  let target := rd3 (targetPositions bufs) i in
  (forall n,
     coord 0 (pos n) - coord 0 target
     = (1 - lerpSpeed delta) ^ n * (coord 0 start - coord 0 target) /\
     coord 2 (pos n) - coord 2 target
     = (1 - lerpSpeed delta) ^ n * (coord 2 start - coord 2 target) /\
     Rabs (coord 1 (pos n) - coord 1 target)
     <= (1 - lerpSpeed delta) ^ n * Rabs (coord 1 start - coord 1 target)
        + 0.01 / lerpSpeed delta) /\
  exists M, forall n, (M <= n)%nat ->
    Rabs (coord 0 (pos n) - coord 0 target) < tolerance /\
    Rabs (coord 2 (pos n) - coord 2 target) < tolerance /\
    Rabs (coord 1 (pos n) - coord 1 target) < tolerance + 0.01 / lerpSpeed delta.
Proof.
  intros Hlen Hs Hl Hi Htol pos start target.
  assert (Hall : forall n,
     coord 0 (pos n) - coord 0 target
     = (1 - lerpSpeed delta) ^ n * (coord 0 start - coord 0 target) /\
     coord 2 (pos n) - coord 2 target
     = (1 - lerpSpeed delta) ^ n * (coord 2 start - coord 2 target) /\
     Rabs (coord 1 (pos n) - coord 1 target)
     <= (1 - lerpSpeed delta) ^ n * Rabs (coord 1 start - coord 1 target)
        + 0.01 / lerpSpeed delta).
  { intros n.
    destruct (frames_closed_offsets n points bufs gesture delta clock k i Hlen Hs Hi)
      as [Hx Hz].
    pose proof (frames_closed_height n points bufs gesture delta clock k i Hlen Hs Hl Hi)
      as Hy.
    cbv zeta in Hx, Hz, Hy. unfold pos, start, target.
    split; [exact Hx|]. split; [exact Hz|].
    eapply Rle_trans; [exact Hy|].
    assert (Hpow : 0 < (1 - lerpSpeed delta) ^ n) by (apply pow_lt; lra).
    assert (HQ : 0 < 0.01 / lerpSpeed delta) by (apply Rdiv_lt_0_compat; lra).
    set (Q := 0.01 / lerpSpeed delta) in *.
    set (A := (1 - lerpSpeed delta) ^ n) in *.
    clearbody Q A. nra. }
  split; [exact Hall|].
  set (bound := Rabs (coord 0 start - coord 0 target)
                + Rabs (coord 1 start - coord 1 target)
                + Rabs (coord 2 start - coord 2 target)).
  pose proof (Rabs_pos (coord 0 start - coord 0 target)) as H0.
  pose proof (Rabs_pos (coord 1 start - coord 1 target)) as H1.
  pose proof (Rabs_pos (coord 2 start - coord 2 target)) as H2.
  destruct (pow_below (1 - lerpSpeed delta) bound tolerance) as [M HM];
    [lra | subst bound; lra | exact Htol |].
  exists M. intros n Hn. specialize (HM n Hn).
  destruct (Hall n) as (Hx & Hz & Hy).
  assert (Hpow : 0 < (1 - lerpSpeed delta) ^ n) by (apply pow_lt; lra).
  rewrite Hx, Hz, !Rabs_mult, (Rabs_pos_eq ((1 - lerpSpeed delta) ^ n)) by lra.
  subst bound. repeat split; nra.
Qed.

(** X17.  The animation is not exactly independent of the frame rate:
    with the hand closed, two calls of the animation callback with the
    frame time [delta] leave [(1 - 3 * delta) ^ 2] of the x and z
    offsets of a particle, one call with the frame time [2 * delta]
    leaves [1 - 6 * delta] of them, and the positions differ by
    [9 * delta ^ 2] times the first offset. *)
Theorem smoothing_depends_on_frame_rate (points : Points) (bufs : Buffers)
    (gesture : GestureState) (delta : R) (clock clock' : nat -> R) (k i : nat) :
  length (currentPositions bufs) = (PARTICLE_COUNT * 3)%nat ->
  spreadFactor gesture <= 0.1 ->
  (i < PARTICLE_COUNT)%nat ->
  let two :=
    rd3 (currentPositions
           (snd (fst (frames Math_random 2 points bufs gesture delta clock k)))) i in
  let one :=
    rd3 (currentPositions
           (snd (fst (frames Math_random 1 points bufs gesture (2 * delta) clock' k)))) i in
  let start := rd3 (currentPositions bufs) i in
  let target := rd3 (targetPositions bufs) i in
  (coord 0 two - coord 0 target = (1 - 3 * delta) ^ 2 * (coord 0 start - coord 0 target) /\
   coord 0 one - coord 0 target = (1 - 6 * delta) * (coord 0 start - coord 0 target) /\
   coord 0 two - coord 0 one = 9 * delta ^ 2 * (coord 0 start - coord 0 target)) /\
  (coord 2 two - coord 2 target = (1 - 3 * delta) ^ 2 * (coord 2 start - coord 2 target) /\
   coord 2 one - coord 2 target = (1 - 6 * delta) * (coord 2 start - coord 2 target) /\
   coord 2 two - coord 2 one = 9 * delta ^ 2 * (coord 2 start - coord 2 target)).
Proof.
  intros Hlen Hs Hi two one start target.
  destruct (frames_closed_offsets 2 points bufs gesture delta clock k i Hlen Hs Hi)
    as [Hx2 Hz2].
  destruct (frames_closed_offsets 1 points bufs gesture (2 * delta) clock' k i Hlen Hs Hi)
    as [Hx1 Hz1].
  cbv zeta in Hx2, Hz2, Hx1, Hz1. fold two start target in Hx2, Hz2.
  fold one start target in Hx1, Hz1.
  unfold lerpSpeed in Hx2, Hz2, Hx1, Hz1.
  assert (E3 : 3.0 = 3) by lra. rewrite E3 in Hx2, Hz2, Hx1, Hz1.
  split; (split; [|split]); lra || nra.
Qed.

End ClosedHandSequences.

Lemma sampleBuffers_length :
  length (currentPositions sampleBuffers) = (PARTICLE_COUNT * 3)%nat.
Proof. apply length_replicate. Qed.

Lemma initialGesture_closed : spreadFactor initialGesture <= 0.1.
Proof. unfold spreadFactor, initialGesture. cbn [openness]. lra. Qed.

Lemma PARTICLE_COUNT_pos : (0 < PARTICLE_COUNT)%nat.
Proof. unfold PARTICLE_COUNT. lia. Qed.

(** The second frame of the first particle of the sample buffers, with
    the hand closed and a frame time of 0.1. *)
Lemma smoothing_converges_witness :
  length (currentPositions sampleBuffers) = (PARTICLE_COUNT * 3)%nat /\
  0 < lerpSpeed 0.1 < 1 /\
  (0 < PARTICLE_COUNT)%nat /\
  between3
    (rd3 (currentPositions
            (snd (fst (frames sampleSource 1 (mkPoints 0) sampleBuffers
                         initialGesture 0.1 sampleClock 0)))) 0)
    (untwinkle (sampleClock 1) 0
       (rd3 (currentPositions
               (snd (fst (frames sampleSource 2 (mkPoints 0) sampleBuffers
                            initialGesture 0.1 sampleClock 0)))) 0))
    (frameTarget sampleSource initialGesture sampleBuffers 0
       (snd (frames sampleSource 1 (mkPoints 0) sampleBuffers
               initialGesture 0.1 sampleClock 0))).
Proof.
  assert (Hs : 0 < lerpSpeed 0.1 < 1) by (unfold lerpSpeed; lra).
  split; [exact sampleBuffers_length|]. split; [exact Hs|].
  split; [exact PARTICLE_COUNT_pos|].
  pose proof (smoothing_converges sampleSource (mkPoints 0) sampleBuffers
                initialGesture 0.1 sampleClock 0 1 0
                sampleBuffers_length Hs PARTICLE_COUNT_pos) as H.
  cbv zeta in H. destruct H as (_ & _ & _ & _ & _ & Hbetween & _).
  exact Hbetween.
Defined.

(** The first particle of the sample buffers under closed-hand frames
    of 0.1 seconds, down to a thousandth on x. *)
Lemma smoothing_reaches_any_tolerance_witness :
  length (currentPositions sampleBuffers) = (PARTICLE_COUNT * 3)%nat /\
  spreadFactor initialGesture <= 0.1 /\
  0 < lerpSpeed 0.1 < 1 /\
  (0 < PARTICLE_COUNT)%nat /\
  0 < 0.001 /\
  exists M, forall n, (M <= n)%nat ->
    Rabs (coord 0
            (rd3 (currentPositions
                    (snd (fst (frames sampleSource n (mkPoints 0) sampleBuffers
                                 initialGesture 0.1 sampleClock 0)))) 0)
          - coord 0 (rd3 (targetPositions sampleBuffers) 0)) < 0.001.
Proof.
  assert (Hs : 0 < lerpSpeed 0.1 < 1) by (unfold lerpSpeed; lra).
  assert (Htol : 0 < 0.001) by lra.
  split; [exact sampleBuffers_length|]. split; [exact initialGesture_closed|].
  split; [exact Hs|]. split; [exact PARTICLE_COUNT_pos|]. split; [exact Htol|].
  pose proof (smoothing_reaches_any_tolerance sampleSource (mkPoints 0) sampleBuffers
                initialGesture 0.1 sampleClock 0 0 0.001
                sampleBuffers_length initialGesture_closed Hs PARTICLE_COUNT_pos Htol) as H.
  cbv zeta in H. destruct H as (_ & M & HM).
  exists M. intros n Hn. exact (proj1 (HM n Hn)).
Defined.

(** Two frames of 0.1 seconds against one frame of 0.2 seconds on the
    first particle of the sample buffers. *)
Lemma smoothing_depends_on_frame_rate_witness :
  length (currentPositions sampleBuffers) = (PARTICLE_COUNT * 3)%nat /\
  spreadFactor initialGesture <= 0.1 /\
  (0 < PARTICLE_COUNT)%nat /\
  coord 0 (rd3 (currentPositions
                  (snd (fst (frames sampleSource 2 (mkPoints 0) sampleBuffers
                               initialGesture 0.1 sampleClock 0)))) 0)
  - coord 0 (rd3 (currentPositions
                    (snd (fst (frames sampleSource 1 (mkPoints 0) sampleBuffers
                                 initialGesture (2 * 0.1) sampleClock 0)))) 0)
  = 9 * 0.1 ^ 2 * (coord 0 (rd3 (currentPositions sampleBuffers) 0)
                   - coord 0 (rd3 (targetPositions sampleBuffers) 0)).
Proof.
  split; [exact sampleBuffers_length|]. split; [exact initialGesture_closed|].
  split; [exact PARTICLE_COUNT_pos|].
  pose proof (smoothing_depends_on_frame_rate sampleSource (mkPoints 0) sampleBuffers
                initialGesture 0.1 sampleClock sampleClock 0 0
                sampleBuffers_length initialGesture_closed PARTICLE_COUNT_pos) as H.
  cbv zeta in H. destruct H as ((_ & _ & Hdiff) & _).
  exact Hdiff.
Defined.
